(** * MODIS LAI reconstruction pipeline (get_LAI and its helpers)

    Shallow embedding of the numerical core of [conversion_to_ALMA.ipynb] /
    [process_MODIS_LAI.ipynb]: [get_spatial_weighted_LAI],
    [interpolate_NA_LAI], [check_data_availability_LAI], [rolling_mean],
    [smoothing_LAI], [replace_negative_with_mean_of_nearest], and of
    [get_LAI] the pixel selection and the steps up to the data frame.

    Numbers.  A numpy float64 cell is modelled as [float]: either [NaN] or a
    finite value carried by an exact rational ([Qc]).  Rounding, overflow and
    the infinities are outside the model; every arithmetic step of the
    embedded functions is NaN-propagating exactly as in numpy.

    Effects.  Python exceptions are the [Err] results of [outcome]; the
    arrays a function overwrites in place are returned next to its value. *)

From Stdlib Require Import ZArith QArith Qcanon List Bool Lia Sorted.
Import ListNotations.

Local Open Scope Qc_scope.

(** ** Exceptions and results *)

Inductive exn : Type :=
| IndexError
| ValueError
| TypeError
| ZeroDivisionError.

Inductive outcome (A : Type) : Type :=
| Ok (a : A)
| Err (e : exn).

Arguments Ok {A} a.
Arguments Err {A} e.

Definition bind {A B : Type} (m : outcome A) (k : A -> outcome B) : outcome B :=
  match m with
  | Ok a => k a
  | Err e => Err e
  end.

Notation "x <- m ;; k" := (bind m (fun x => k))
  (at level 61, m at next level, right associativity).

(** ** float64 cells *)

Inductive float : Type :=
| NaN
| Fin (q : Qc).

Definition qc (n : Z) (d : positive) : Qc := Q2Qc (n # d).

Definition Qceqb (x y : Qc) : bool :=
  match x ?= y with Eq => true | _ => false end.

Definition Qcltb (x y : Qc) : bool :=
  match x ?= y with Lt => true | _ => false end.

Definition isnan (x : float) : bool :=
  match x with NaN => true | Fin _ => false end.

Definition fadd (x y : float) : float :=
  match x, y with Fin a, Fin b => Fin (a + b) | _, _ => NaN end.

Definition fsub (x y : float) : float :=
  match x, y with Fin a, Fin b => Fin (a - b) | _, _ => NaN end.

Definition fmul (x y : float) : float :=
  match x, y with Fin a, Fin b => Fin (a * b) | _, _ => NaN end.

(** Division: 0/0 and anything involving NaN is NaN.  A non-zero finite value
    divided by zero would be an infinity; no embedded function reaches that
    case (every divisor is a count >= 1, the constant 2, a squared standard
    deviation >= 0.01, or a row total that is zero only when the numerator is
    NaN), and it is mapped to NaN here. *)
Definition fdiv (x y : float) : float :=
  match x, y with
  | Fin a, Fin b => if Qceqb b 0 then NaN else Fin (a / b)
  | _, _ => NaN
  end.

(** [x < y] and [x > y] on cells: False whenever an operand is NaN. *)
Definition flt (x y : float) : bool :=
  match x, y with Fin a, Fin b => Qcltb a b | _, _ => false end.

Definition fgt (x y : float) : bool := flt y x.

Definition of_Z (z : Z) : float := Fin (Q2Qc (inject_Z z)).

Definition of_nat (n : nat) : float := of_Z (Z.of_nat n).

(** ** numpy reductions on one axis *)

(** [np.nansum]: NaN cells count as zero. *)
Definition nansum (l : list float) : float :=
  Fin (fold_right (fun x acc => match x with NaN => acc | Fin a => a + acc end) 0 l).

Definition count_valid (l : list float) : nat :=
  length (filter (fun x => negb (isnan x)) l).

(** [np.nanmean]: the sum of the non-NaN cells over their number; NaN (with a
    RuntimeWarning, not an exception) when every cell is NaN. *)
Definition nanmean (l : list float) : float :=
  match count_valid l with
  | O => NaN
  | S _ => fdiv (nansum l) (of_nat (count_valid l))
  end.

(** [np.mean]: NaN-propagating sum over the length; NaN on an empty slice. *)
Definition mean (l : list float) : float :=
  match l with
  | [] => NaN
  | _ => fdiv (fold_right fadd (Fin 0) l) (of_nat (length l))
  end.

(** ** Element-wise operations on 2-D arrays (lists of rows) *)

Definition grid : Type := list (list float).

Fixpoint map2 {A B C : Type} (f : A -> B -> C) (l1 : list A) (l2 : list B) : list C :=
  match l1, l2 with
  | a :: l1', b :: l2' => f a b :: map2 f l1' l2'
  | _, _ => []
  end.

Definition gmap {A B : Type} (f : A -> B) (g : list (list A)) : list (list B) :=
  map (map f) g.

Definition gmap2 {A B C : Type} (f : A -> B -> C)
  (g1 : list (list A)) (g2 : list (list B)) : list (list C) :=
  map2 (map2 f) g1 g2.

(** [a[mask] = v] for a boolean mask of the shape of [a]. *)
Definition set_where (mask : list (list bool)) (v : float) (a : grid) : grid :=
  gmap2 (fun (m : bool) x => if m then v else x) mask a.

Fixpoint nat_list_eqb (l1 l2 : list nat) : bool :=
  match l1, l2 with
  | [], [] => true
  | a :: l1', b :: l2' => Nat.eqb a b && nat_list_eqb l1' l2'
  | _, _ => false
  end.

(** Two 2-D arrays have the same shape. *)
Definition same_shape {A B : Type} (a : list (list A)) (b : list (list B)) : bool :=
  nat_list_eqb (map (@length A) a) (map (@length B) b).

(** ** Stage 2: get_spatial_weighted_LAI *)

Definition qc_flags : list Qc :=
  map (fun z => Q2Qc (inject_Z z)) [0; 2; 24; 26; 32; 34; 56; 58]%Z.

(** [np.isin(x, qc_flags)] on one cell. *)
Definition isin (flags : list Qc) (x : float) : bool :=
  match x with
  | NaN => false
  | Fin q => existsb (Qceqb q) flags
  end.

(** [(1 / sd_pixel**2) / np.nansum(1 / sd_pixel**2, axis=1, keepdims=True)] *)
Definition inverse_variance (sd_pixel : grid) : grid :=
  gmap (fun s => fdiv (Fin 1) (fmul s s)) sd_pixel.

Definition row_weights (inv : list float) : list float :=
  map (fun v => fdiv v (nansum inv)) inv.

Definition weights_of (sd_pixel : grid) : grid :=
  map row_weights (inverse_variance sd_pixel).

(** What the call leaves behind: the three argument arrays as they are after
    the call (numpy arrays are passed by reference and indexed assignment
    writes through), and the returned series. *)
Record aggregated : Type := mk_aggregated {
  lai_pixel_after : grid;
  sd_pixel_after : grid;
  qc_pixel_after : grid;
  weighted_lai : list float
}.

Definition get_spatial_weighted_LAI (lai_pixel sd_pixel qc_pixel : grid)
  : outcome aggregated :=
  (* mask = np.isin(qc_pixel, qc_flags) *)
  let mask := gmap (isin qc_flags) qc_pixel in
  (* a boolean index of another shape raises IndexError *)
  if negb (same_shape mask lai_pixel && same_shape mask sd_pixel) then Err IndexError
  else
    (* lai_pixel[~mask] = np.nan ; sd_pixel[~mask] = np.nan *)
    let lai_pixel := set_where (gmap negb mask) NaN lai_pixel in
    let sd_pixel := set_where (gmap negb mask) NaN sd_pixel in
    (* sd_pixel[sd_pixel < 0.1] = np.nan *)
    let sd_pixel := set_where (gmap (fun s => flt s (Fin (qc 1 10))) sd_pixel) NaN sd_pixel in
    (* lai_pixel[np.isnan(sd_pixel)] = np.nan *)
    let lai_pixel := set_where (gmap isnan sd_pixel) NaN lai_pixel in
    (* lai_pixel[lai_pixel > 10] = np.nan *)
    let lai_pixel := set_where (gmap (fun l => fgt l (Fin (qc 10 1))) lai_pixel) NaN lai_pixel in
    let weights := weights_of sd_pixel in
    (* weighted_lai_values = lai_pixel * weights *)
    let weighted_lai_values := gmap2 fmul lai_pixel weights in
    (* weighted_lai = np.nanmean(weighted_lai_values, axis=1) *)
    Ok (mk_aggregated lai_pixel sd_pixel qc_pixel (map nanmean weighted_lai_values)).

(** The keep-mask of one cell: accepted QC flag, standard deviation >= 0.1,
    LAI <= 10 (each comparison is False on NaN). *)
Definition fge (x y : float) : bool :=
  match x, y with Fin a, Fin b => negb (Qcltb a b) | _, _ => false end.

Definition fle (x y : float) : bool := fge y x.

Definition keep_mask (l s q : float) : bool :=
  isin qc_flags q && fge s (Fin (qc 1 10)) && fle l (Fin (qc 10 1)).

(** The part of the keep-mask that reaches the standard-deviation array. *)
Definition keep_sd (s q : float) : bool :=
  isin qc_flags q && fge s (Fin (qc 1 10)).

(** One row of the arrays after the masking statements, cell by cell. *)
Definition mask_sd_row (s q : list float) : list float :=
  map2 (fun s q => if keep_sd s q then s else NaN) s q.

Definition mask_lai_row (l s q : list float) : list float :=
  map2 (fun l sq => if keep_mask l (fst sq) (snd sq) then l else NaN) l (combine s q).

(** [cell a t i] is [a[t, i]] (NaN outside the array). *)
Definition cell (a : grid) (t i : nat) : float := nth i (nth t a []) NaN.

(** ** Stage 3: interpolate_NA_LAI *)

(** [x[~nan_mask]] paired with [unfilled_lai[~nan_mask]], for [x] counting
    from [i]. *)
Fixpoint known_from (i : Z) (l : list float) : list (Z * Qc) :=
  match l with
  | [] => []
  | NaN :: r => known_from (i + 1) r
  | Fin v :: r => (i, v) :: known_from (i + 1) r
  end.

Definition known_points (unfilled_lai : list float) : list (Z * Qc) :=
  known_from 0 unfilled_lai.

Definition arange (n : nat) : list Z := map Z.of_nat (seq 0 n).

(** [dst[mask] = src[mask]] for arrays of one length. *)
Fixpoint assign_where (mask : list bool) (src dst : list float) : list float :=
  match mask, src, dst with
  | m :: mask', s :: src', d :: dst' =>
      (if m then s else d) :: assign_where mask' src' dst'
  | _, _, _ => []
  end.

(** [a[-1] = v]: IndexError on an empty array. *)
Definition set_last (v : float) (a : list float) : outcome (list float) :=
  match a with
  | [] => Err IndexError
  | _ => Ok (removelast a ++ [v])
  end.

(** [v] after [filled_lai[filled_lai < 0] = 0]. *)
Definition clamp0 (v : float) : float := if flt v (Fin 0) then Fin 0 else v.

Section Interpolator.

(** [scipy.interpolate.interp1d(x, y, kind='cubic', fill_value="extrapolate")]:
    the library's cubic interpolant through the points, defined on every
    index, or the exception it raises (fewer than four points). *)
Variable interp1d : list Z -> list Qc -> outcome (Z -> Qc).

Definition interpolate_NA_LAI (unfilled_lai : list float) : outcome (list float) :=
  (* filled_lai = unfilled_lai.copy() *)
  let filled_lai := unfilled_lai in
  let nan_mask := map isnan unfilled_lai in
  let x := arange (length unfilled_lai) in
  let pts := known_points unfilled_lai in
  interp_func <- interp1d (map fst pts) (map snd pts) ;;
  (* filled_lai[nan_mask] = interp_func(x)[nan_mask] *)
  let filled_lai := assign_where nan_mask (map (fun i => Fin (interp_func i)) x) filled_lai in
  (* filled_lai[filled_lai < 0] = 0 *)
  let filled_lai := map clamp0 filled_lai in
  (* filled_lai[-1] = 0 *)
  set_last (Fin 0) filled_lai.

End Interpolator.

(** The array before the clamp: the known cells as they were, the missing
    ones from the interpolant. *)
Definition interpolated (f : Z -> Qc) (unfilled_lai : list float) : list float :=
  assign_where (map isnan unfilled_lai)
    (map (fun i => Fin (f i)) (arange (length unfilled_lai))) unfilled_lai.

(** What the library does for [kind='cubic'], on abscissae and ordinates of
    one length: an exception on fewer than four points, an interpolant on
    four or more points with strictly increasing abscissae. *)
Definition cubic_interp1d (interp1d : list Z -> list Qc -> outcome (Z -> Qc)) : Prop :=
  forall xs ys, length ys = length xs ->
    ((length xs < 4)%nat -> exists e, interp1d xs ys = Err e)
    /\ ((4 <= length xs)%nat -> StronglySorted Z.lt xs ->
        exists f, interp1d xs ys = Ok f).

(** ** Stage 4: check_data_availability_LAI *)

(** A calendar date: the year and the number of days since its January 1st. *)
Record date : Type := mk_date { year : Z; yday : Z }.

Definition date_eqb (d1 d2 : date) : bool :=
  (year d1 =? year d2)%Z && (yday d1 =? yday d2)%Z.

Definition is_leap (y : Z) : bool :=
  ((y mod 4 =? 0) && (negb (y mod 100 =? 0) || (y mod 400 =? 0)))%Z.

Definition days_in_year (y : Z) : Z := if is_leap y then 366%Z else 365%Z.

(** [pd.date_range(start=f"{year}-01-01", end=f"{year}-12-31", freq='8D')]:
    January 1st and every eighth day after it up to December 31st. *)
Definition date_range_8D (y : Z) : list date :=
  map (fun k => mk_date y (8 * Z.of_nat k))
      (seq 0 (Z.to_nat ((days_in_year y - 1) / 8 + 1))).

(** [range(lo, hi)] *)
Definition range (lo hi : Z) : list Z :=
  map (fun k => (lo + Z.of_nat k)%Z) (seq 0 (Z.to_nat (hi - lo))).

Definition year_min (t : list date) : Z :=
  fold_right Z.min (year (hd (mk_date 0 0) t)) (map year t).

Definition year_max (t : list date) : Z :=
  fold_right Z.max (year (hd (mk_date 0 0) t)) (map year t).

(** The loop copying [filled_lai] in order onto the dates of the calendar that
    occur in [lai_time]; the other cells keep the NaN of [np.full]. *)
Fixpoint fill_temp_array (result : list bool) (filled_lai : list float)
  (fill_index : nat) : outcome (list float) :=
  match result with
  | [] => Ok []
  | true :: r =>
      match nth_error filled_lai fill_index with
      | None => Err IndexError
      | Some v =>
          rest <- fill_temp_array r filled_lai (S fill_index) ;;
          Ok (v :: rest)
      end
  | false :: r =>
      rest <- fill_temp_array r filled_lai fill_index ;;
      Ok (NaN :: rest)
  end.

(** A 2-D array with its number of columns (kept when there is no row). *)
Record matrix : Type := mk_matrix { ncols : nat; rows : list (list float) }.

Fixpoint chunks (ncol nrow : nat) (a : list float) : list (list float) :=
  match nrow with
  | O => []
  | S n => firstn ncol a :: chunks ncol n (skipn ncol a)
  end.

(** [a.reshape(-1, ncol)] *)
Definition reshape (a : list float) (ncol : nat) : outcome matrix :=
  if (ncol =? 0)%nat || negb (length a mod ncol =? 0)%nat then Err ValueError
  else Ok (mk_matrix ncol (chunks ncol (length a / ncol) a)).

(** [m[1:-1]] on the rows *)
Definition drop_first_last (m : matrix) : matrix :=
  mk_matrix (ncols m) (removelast (tl (rows m))).

(** [m.reshape(-1)] *)
Definition flatten (m : matrix) : list float := concat (rows m).

(** [np.where(np.isnan(a))[0]]: the indices of the NaN cells, ascending. *)
Fixpoint nan_positions_from (i : nat) (a : list float) : list nat :=
  match a with
  | [] => []
  | NaN :: r => i :: nan_positions_from (S i) r
  | Fin _ :: r => nan_positions_from (S i) r
  end.

Definition nan_positions (a : list float) : list nat := nan_positions_from 0 a.

(** [a[i]] on a 1-D array: a negative index counts from the end, an index
    outside [-len, len) raises IndexError. *)
Definition py_index (a : list float) (i : Z) : outcome float :=
  let n := Z.of_nat (length a) in
  if ((0 <=? i) && (i <? n))%Z then Ok (nth (Z.to_nat i) a NaN)
  else if ((- n <=? i) && (i <? 0))%Z then Ok (nth (Z.to_nat (n + i)) a NaN)
  else Err IndexError.

Fixpoint set_nth (i : nat) (v : float) (a : list float) : list float :=
  match a, i with
  | [], _ => []
  | _ :: r, O => v :: r
  | x :: r, S i' => x :: set_nth i' v r
  end.

(** The loop over [positions]; every write is seen by the later reads. *)
Fixpoint fill_positions (positions : list nat) (a : list float) : outcome (list float) :=
  match positions with
  | [] => Ok a
  | position :: ps =>
      prev <- py_index a (Z.of_nat position - 1) ;;
      next <- py_index a (Z.of_nat position + 1) ;;
      fill_positions ps (set_nth position (fdiv (fadd prev next) (Fin (qc 2 1))) a)
  end.

(** [all_time]: the 8-day dates of every year from the first to the last year
    of [lai_time]. *)
Definition regular_calendar (lai_time : list date) : list date :=
  flat_map date_range_8D (range (year_min lai_time) (year_max lai_time + 1)).

Definition isin_dates (all_time lai_time : list date) : list bool :=
  map (fun d => existsb (date_eqb d) lai_time) all_time.

(** The value of the call: [Some] pair, or [None] when the function falls off
    its end without a [return]. *)
Definition check_data_availability_LAI (filled_lai : list float) (lai_time : list date)
  : outcome (option (matrix * list date)) :=
  match lai_time with
  | [] => Err TypeError (* min() of no year is NaN, which range() refuses *)
  | _ =>
      let all_time := regular_calendar lai_time in
      (* result = all_time.isin(lai_time) *)
      let result := isin_dates all_time lai_time in
      temp_array <- fill_temp_array result filled_lai 0 ;;
      reshaped <- reshape temp_array 46 ;;
      let selected_lai := drop_first_last reshaped in
      let selected_dates :=
        filter (fun d => (2003 <=? year d)%Z && (year d <=? 2023)%Z) all_time in
      if (0 <? length (flatten selected_lai))%nat then
        let selected_lai_flatten := flatten selected_lai in
        let positions := nan_positions selected_lai_flatten in
        if (0 <? length positions)%nat then
          selected_lai_flatten <- fill_positions positions selected_lai_flatten ;;
          gap_free_lai <- reshape selected_lai_flatten 46 ;;
          Ok (Some (gap_free_lai, selected_dates))
        else Ok None
      else Ok (Some (selected_lai, selected_dates))
  end.

(** ** Stage 5: rolling_mean and smoothing_LAI *)

(** A bound of [a[start:stop]] on an array of [n] cells: a negative one
    counts from the end, and the result is clipped to [0, n]. *)
Definition slice_bound (n : nat) (i : Z) : nat :=
  Z.to_nat (Z.min (Z.of_nat n)
                  (Z.max 0 (if (i <? 0)%Z then (i + Z.of_nat n)%Z else i))).

(** [a[start:stop]] *)
Definition slice (a : list float) (start stop : Z) : list float :=
  let lo := slice_bound (length a) start in
  let hi := slice_bound (length a) stop in
  firstn (hi - lo)%nat (skipn lo a).

Definition rolling_mean (array : list float) (window : Z) : list float :=
  map (fun i =>
         let start_index := Z.max 0 (i - window / 2) in
         let end_index := Z.min (Z.of_nat (length array)) (i + (window + 1) / 2) in
         mean (slice array start_index end_index))
      (arange (length array)).

(** [np.nanmean(m, axis=0)] *)
Definition column_means (m : matrix) : list float :=
  map (fun j => nanmean (map (fun r => nth j r NaN) (rows m))) (seq 0 (ncols m)).

(** [np.tile(a, k)] *)
Definition tile (a : list float) (k : nat) : list float := concat (repeat a k).

(** Element-wise operation on two 1-D arrays with numpy's broadcasting: equal
    lengths, or one operand of length 1; ValueError otherwise. *)
Definition broadcast (op : float -> float -> float) (a b : list float)
  : outcome (list float) :=
  if (length a =? length b)%nat then Ok (map2 op a b)
  else if (length b =? 1)%nat then Ok (map (fun x => op x (nth 0 b NaN)) a)
  else if (length a =? 1)%nat then Ok (map (fun y => op (nth 0 a NaN) y) b)
  else Err ValueError.

(** [m - column_means]: the 1-D array is subtracted from every row. *)
Definition anomaly_of (m : matrix) : matrix :=
  mk_matrix (ncols m) (map (fun r => map2 fsub r (column_means m)) (rows m)).

(** The entries [lo] through [hi] of [a], both included. *)
Definition window_through (a : list float) (lo hi : nat) : list float :=
  map (fun k => nth k a NaN) (seq lo (S hi - lo)).

(** A 2-D array is well formed when every row has [ncols] cells. *)
Definition rectangular (m : matrix) : Prop :=
  forall r, In r (rows m) -> length r = ncols m.

Section Smoother.

(** [scipy.signal.savgol_filter(x, window_length, polyorder)] *)
Variable savgol_filter : list float -> Z -> Z -> list float.

Definition smoothing_LAI (gap_free_lai : matrix) : outcome (list float) :=
  let column_means := column_means gap_free_lai in
  let smoothed_column_means := savgol_filter column_means 13 3 in
  let anomaly := anomaly_of gap_free_lai in
  let anomaly_rolling := rolling_mean (flatten anomaly) 13 in
  broadcast fadd anomaly_rolling (tile smoothed_column_means (length (rows anomaly))).


End Smoother.

(** ** Stage 1: the pixel selection of get_LAI *)

(** One line of a per-station MODIS table. *)
Record obs : Type := mk_obs {
  pixel : Z;
  calendar_date : date;
  value : float;
  scale : float
}.

Definition table : Type := list obs.

(** [t.loc[t['pixel'] == p]] *)
Definition loc (t : table) (p : Z) : table :=
  filter (fun r => (pixel r =? p)%Z) t.

Definition pixel_no : list Z := [7; 8; 9; 12; 13; 14; 17; 18; 19]%Z.

(** [max(t['pixel'])]: ValueError on an empty table. *)
Definition max_pixel (t : table) : outcome Z :=
  match map pixel t with
  | [] => Err ValueError
  | p :: ps => Ok (fold_left Z.max ps p)
  end.

(** [a[:, idx] = col] on an array of [n] rows: the column has [n] cells, or one
    cell that is repeated; ValueError otherwise. *)
Definition as_column (n : nat) (col : list float) : outcome (list float) :=
  if (length col =? n)%nat then Ok col
  else if (length col =? 1)%nat then Ok (repeat (nth 0 col NaN) n)
  else Err ValueError.

(** [t.loc[t['pixel'] == p, 'scale'].values[0]] *)
Definition first_scale (t : table) (p : Z) : outcome float :=
  match loc t p with
  | [] => Err IndexError
  | r :: _ => Ok (scale r)
  end.

(** The right-hand sides of the loop body for pixel [p]. *)
Definition scaled_column (t : table) (p : Z) (no_tsteps : nat) : outcome (list float) :=
  let values := firstn no_tsteps (map value (loc t p)) in
  s <- first_scale t p ;;
  as_column no_tsteps (map (fun v => fmul v s) values).

Definition raw_column (t : table) (p : Z) (no_tsteps : nat) : outcome (list float) :=
  as_column no_tsteps (firstn no_tsteps (map value (loc t p))).

Fixpoint mapM {A B : Type} (f : A -> outcome B) (l : list A) : outcome (list B) :=
  match l with
  | [] => Ok []
  | a :: r => b <- f a ;; bs <- mapM f r ;; Ok (b :: bs)
  end.

(** The [no_tsteps] x 9 array whose column [idx] is [cols[idx]]. *)
Definition of_columns (no_tsteps : nat) (cols : list (list float)) : grid :=
  map (fun t => map (fun c => nth t c NaN) cols) (seq 0 no_tsteps).

(** [min(a, b, c)] *)
Definition min3 (a b c : Z) : Z := Z.min (Z.min a b) c.






Record selection : Type := mk_selection {
  sel_lai_pixel : grid;
  sel_sd_pixel : grid;
  sel_qc_pixel : grid;
  sel_lai_time : list date
}.

(** [get_LAI] from [no_tsteps = ...] to the end of the loop over [pixel_no],
    on the three tables read from the CSV files. *)
Definition get_LAI_pixels (lai sd qc : table) : outcome selection :=
  mx <- max_pixel lai ;;
  if (mx =? 0)%Z then Err ZeroDivisionError
  else
    let no_tsteps :=
      (min3 (Z.of_nat (length lai)) (Z.of_nat (length sd)) (Z.of_nat (length qc)) / mx)%Z in
    if (no_tsteps <? 0)%Z then Err ValueError (* np.full with a negative dimension *)
    else
      let n := Z.to_nat no_tsteps in
      let lai_time := map calendar_date (loc lai (hd 0%Z pixel_no)) in
      cols <- mapM (fun p =>
                      l <- scaled_column lai p n ;;
                      s <- scaled_column sd p n ;;
                      q <- raw_column qc p n ;;
                      Ok (l, s, q)) pixel_no ;;
      Ok (mk_selection
            (of_columns n (map (fun c => fst (fst c)) cols))
            (of_columns n (map (fun c => snd (fst c)) cols))
            (of_columns n (map snd cols))
            lai_time).

(** The years the calendar is built for, the test that selects
    [selected_dates], and the number of matched dates. *)
Definition years_of (lai_time : list date) : list Z :=
  range (year_min lai_time) (year_max lai_time + 1).

Definition in_2003_2023 (y : Z) : bool := (2003 <=? y)%Z && (y <=? 2023)%Z.

Definition count_true (l : list bool) : nat := length (filter (fun b : bool => b) l).

(** The value the gap-fill loop writes at an interior position [j] of the
    array [a] it was given. *)
Definition neighbour_mean (a : list float) (j : nat) : float :=
  fdiv (fadd (nth (j - 1) a NaN) (nth (j + 1) a NaN)) (Fin (qc 2 1)).

(** [pd.DataFrame({'Date': selected_dates, 'LAI': smooth_lai})]: the two
    columns must have one length. *)
Definition DataFrame_Date_LAI (selected_dates : list date) (smooth_lai : list float)
  : outcome (list (date * float)) :=
  if (length selected_dates =? length smooth_lai)%nat
  then Ok (combine selected_dates smooth_lai)
  else Err ValueError.

Section Frame.

(** [scipy.signal.savgol_filter(x, window_length, polyorder)] with the
    ValueError it raises (an array shorter than the window, a cell that is
    not finite). *)
Variable savgol_filter : list float -> Z -> Z -> outcome (list float).

(** [smoothing_LAI] with a call of the filter that may raise: the exception
    leaves the function, a returned array is used as in [smoothing_LAI]. *)
Definition smoothing_LAI_raising (gap_free_lai : matrix) : outcome (list float) :=
  smoothed_column_means <- savgol_filter (column_means gap_free_lai) 13 3 ;;
  smoothing_LAI (fun _ _ _ => smoothed_column_means) gap_free_lai.

(** [get_LAI] from the call of [check_data_availability_LAI] to [df_lai]:
    unpacking None raises TypeError. *)
Definition get_LAI_frame (filled_lai : list float) (lai_time : list date)
  : outcome (list (date * float)) :=
  r <- check_data_availability_LAI filled_lai lai_time ;;
  match r with
  | None => Err TypeError
  | Some (gap_free_lai, selected_dates) =>
      smooth_lai <- smoothing_LAI_raising gap_free_lai ;;
      DataFrame_Date_LAI selected_dates smooth_lai
  end.

End Frame.

(** The number [np.nansum] returns, and the cells that are NaN or positive. *)
Definition nansum_value (l : list float) : Qc :=
  fold_right (fun x acc => match x with NaN => acc | Fin a => a + acc end) 0 l.

Definition nan_or_positive (x : float) : Prop :=
  match x with NaN => True | Fin a => 0 < a end.

(** ** replace_negative_with_mean_of_nearest *)

(** [np.where(arr < 0)[0]] *)
Fixpoint neg_indices_from (i : nat) (arr : list float) : list nat :=
  match arr with
  | [] => []
  | v :: r =>
      if flt v (Fin 0) then i :: neg_indices_from (S i) r
      else neg_indices_from (S i) r
  end.

Definition neg_indices (arr : list float) : list nat := neg_indices_from 0 arr.

(** [left_index = i - 1; while left_index in neg_indices: left_index -= 1].
    The search stops at -1 at the latest, which is no index of the array. *)
Fixpoint left_index (neg : list nat) (i : nat) : Z :=
  match i with
  | O => (-1)%Z
  | S j => if existsb (Nat.eqb j) neg then left_index neg j else Z.of_nat j
  end.

(** [while right_index in neg_indices: right_index += 1], from
    [right_index = k] with [fuel] indices left before the end of the array;
    the length of the array is in no case among the indices. *)
Fixpoint right_index (neg : list nat) (fuel k : nat) : nat :=
  match fuel with
  | O => k
  | S f => if existsb (Nat.eqb k) neg then right_index neg f (S k) else k
  end.

(** The loop over [neg_indices]; [arr] is overwritten as it goes. *)
Fixpoint replace_loop (neg todo : list nat) (arr : list float) : outcome (list float) :=
  match todo with
  | [] => Ok arr
  | i :: rest =>
      l <- py_index arr (left_index neg i) ;;
      r <- py_index arr (Z.of_nat (right_index neg (length arr - S i) (S i))) ;;
      replace_loop neg rest (set_nth i (mean [l; r]) arr)
  end.

Definition replace_negative_with_mean_of_nearest (arr : list float)
  : outcome (list float) :=
  let neg_indices := neg_indices arr in
  replace_loop neg_indices neg_indices arr.

(** The value written at a negative cell [i], in terms of the array the
    function was given. *)
Definition nearest_mean (arr : list float) (i : nat) : float :=
  let neg := neg_indices arr in
  mean [match left_index neg i with
        | Z.neg _ => nth (length arr - 1) arr NaN
        | l => nth (Z.to_nat l) arr NaN
        end;
        nth (right_index neg (length arr - S i) (S i)) arr NaN].

(** ** Sample inputs *)

Definition fz (z : Z) : float := Fin (qc z 1).

Definition nine (x : float) : list float := repeat x 9.

(** One time step, nine pixels: QC 0, standard deviation 0.5, LAI 3.0. *)
Definition lai_const : grid := [nine (fz 3)].
Definition sd_half : grid := [nine (Fin (qc 1 2))].
Definition qc_good : grid := [nine (fz 0)].

(** The same step with QC 255 on every pixel. *)
Definition qc_255 : grid := [nine (fz 255)].

(** The same step with LAI 11 on the first pixel, and with that pixel's
    standard deviation changed from 0.5 to 0.1. *)
Definition lai_ceiling : grid := [fz 11 :: repeat (fz 3) 8].
Definition sd_tenth_first : grid := [Fin (qc 1 10) :: repeat (Fin (qc 1 2)) 8].

(** Five time steps of nine good pixels, the third with QC 255 throughout. *)
Definition lai_five : grid := repeat (nine (fz 3)) 5.
Definition sd_five : grid := repeat (nine (Fin (qc 1 2))) 5.
Definition qc_five : grid :=
  [nine (fz 0); nine (fz 0); nine (fz 255); nine (fz 0); nine (fz 0)].

(** The polynomial through the given points (Lagrange form); through four
    points it is the cubic that interp1d builds. *)
Fixpoint lagrange_sum (all_xs xs : list Z) (ys : list Qc) (x : Z) : Qc :=
  match xs, ys with
  | xj :: xs', yj :: ys' =>
      yj * fold_right (fun xk acc =>
                         if (xk =? xj)%Z then acc
                         else acc * (Q2Qc (inject_Z (x - xk)) / Q2Qc (inject_Z (xj - xk))))
                      1 all_xs
      + lagrange_sum all_xs xs' ys' x
  | _, _ => 0
  end.

Definition interp1d_lagrange (xs : list Z) (ys : list Qc) : outcome (Z -> Qc) :=
  if (length xs <? 4)%nat then Err ValueError
  else Ok (lagrange_sum xs xs ys).

(** A weighted series with two gaps, the second at its end. *)
Definition series_gaps : list float := [fz 1; NaN; fz 2; fz 4; fz 8; NaN].


(** A table with [T] observations (values [10 p + t]) for each listed pixel. *)
Definition mk_table (pixels : list Z) (T : nat) (sc : float) : table :=
  flat_map (fun p =>
              map (fun t => mk_obs p (mk_date 2003 (8 * Z.of_nat t))
                                   (fz (p * 10 + Z.of_nat t)) sc)
                  (seq 0 T))
           pixels.

(** The 5 x 5 MODIS neighbourhood, two dates: scale 0.1 for LAI and standard
    deviation, QC values as they are. *)
Definition table_25 : table := mk_table (range 1 26) 2 (Fin (qc 1 10)).
Definition table_25_qc : table := mk_table (range 1 26) 2 (fz 1).

(** Two years of 46 slots: 1 and -1 in the first slot, 0 elsewhere. *)
Definition two_years : matrix :=
  mk_matrix 46 [fz 1 :: repeat (fz 0) 45; fz (-1) :: repeat (fz 0) 45].

(** A stand-in for savgol_filter in examples: the array unchanged. *)
Definition savgol_identity (x : list float) (window_length polyorder : Z) : list float := x.

(** Every calendar date of the years [lo..hi]; [n] values 0, 1, 2, ...; a
    timestamp sequence with one date taken out. *)
Definition full_years (lo hi : Z) : list date :=
  flat_map date_range_8D (range lo (hi + 1)).

Definition counting (n : nat) : list float := map of_nat (seq 0 n).

Definition without (d : date) (l : list date) : list date :=
  filter (fun x => negb (date_eqb x d)) l.

(** * Lemmas *)

Local Close Scope Qc_scope.
Local Close Scope Q_scope.
Local Open Scope nat_scope.

(** ** Equality of concrete results *)

Lemma congr_app {A B : Type} (f g : A -> B) (x y : A) :
  f = g -> x = y -> f x = g y.
Proof. intros -> ->; reflexivity. Qed.

Ltac canon_eq :=
  vm_compute;
  repeat lazymatch goal with
    | |- @eq Qc _ _ => apply Qc_is_canon; reflexivity
    | |- _ => first [ reflexivity | apply congr_app ]
    end.

(** ** Lists *)

Lemma map2_length {A B C : Type} (f : A -> B -> C) (l1 : list A) (l2 : list B) :
  length (map2 f l1 l2) = Nat.min (length l1) (length l2).
Proof.
  revert l2; induction l1 as [|a l1 IH]; intros [|b l2]; simpl; auto.
Qed.

Lemma nth_map2 {A B C : Type} (f : A -> B -> C) l1 l2 i da db dc :
  i < length l1 -> i < length l2 ->
  nth i (map2 f l1 l2) dc = f (nth i l1 da) (nth i l2 db).
Proof.
  revert l2 i; induction l1 as [|a l1 IH]; intros [|b l2] [|i]; simpl; try lia; auto.
  intros; apply IH; lia.
Qed.

Lemma nth_map_in {A B : Type} (f : A -> B) l i da db :
  i < length l -> nth i (map f l) db = f (nth i l da).
Proof.
  revert i; induction l as [|a l IH]; intros [|i]; simpl; try lia; auto.
  intros; apply IH; lia.
Qed.

Lemma row_gmap {A B : Type} (f : A -> B) (g : list (list A)) t :
  nth t (gmap f g) [] = map f (nth t g []).
Proof.
  unfold gmap. revert t; induction g as [|r g IH]; intros [|t]; simpl; auto.
Qed.

Lemma row_gmap2 {A B C : Type} (f : A -> B -> C) g1 g2 t :
  nth t (gmap2 f g1 g2) [] = map2 f (nth t g1 []) (nth t g2 []).
Proof.
  unfold gmap2. revert g2 t; induction g1 as [|r g1 IH]; intros [|r2 g2] [|t]; simpl; auto.
  destruct r; reflexivity.
  destruct (nth t g1 []); reflexivity.
Qed.

Lemma row_set_where (mask : list (list bool)) v (a : grid) t :
  nth t (set_where mask v a) []
  = map2 (fun (m : bool) x => if m then v else x) (nth t mask []) (nth t a []).
Proof. apply row_gmap2. Qed.

Lemma nat_list_eqb_eq l1 l2 : nat_list_eqb l1 l2 = true <-> l1 = l2.
Proof.
  revert l2; induction l1 as [|a l1 IH]; intros [|b l2]; simpl; split; try congruence; auto.
  - rewrite andb_true_iff, Nat.eqb_eq, IH. intros [-> ->]; reflexivity.
  - intros H; injection H as -> ->. rewrite Nat.eqb_refl. simpl. apply IH; reflexivity.
Qed.

Lemma same_shape_rows {A B : Type} (a : list (list A)) (b : list (list B)) :
  same_shape a b = true ->
  length a = length b /\ forall t, length (nth t a []) = length (nth t b []).
Proof.
  unfold same_shape. rewrite nat_list_eqb_eq.
  revert b; induction a as [|r a IH]; intros [|r2 b]; simpl; try discriminate.
  - intros _. split; auto. intros [|t]; reflexivity.
  - intros H. injection H as Hr Hrest. destruct (IH _ Hrest) as [Hl Hn].
    split; [congruence|]. intros [|t]; auto.
Qed.

Lemma same_shape_gmap_l {A A' B : Type} (f : A -> A') (a : list (list A)) (b : list (list B)) :
  same_shape (gmap f a) b = same_shape a b.
Proof.
  unfold same_shape, gmap. rewrite map_map. f_equal.
  apply map_ext; intros; apply length_map.
Qed.

(** ** Stage 2: the arrays after the masking statements *)

Lemma keep_sd_cell (s q : float) :
  (let s1 := if negb (isin qc_flags q) then NaN else s in
   if flt s1 (Fin (qc 1 10)) then NaN else s1)
  = if keep_sd s q then s else NaN.
Proof.
  unfold keep_sd. destruct (isin qc_flags q); simpl; auto.
  destruct s as [|a]; simpl; auto.
  destruct (Qcltb a (qc 1 10)); reflexivity.
Qed.

Lemma keep_mask_cell (l s q : float) :
  (let l1 := if negb (isin qc_flags q) then NaN else l in
   let l2 := if isnan (if keep_sd s q then s else NaN) then NaN else l1 in
   if fgt l2 (Fin (qc 10 1)) then NaN else l2)
  = if keep_mask l s q then l else NaN.
Proof.
  unfold keep_mask, keep_sd. destruct (isin qc_flags q); simpl; auto.
  destruct s as [|a]; simpl; auto.
  destruct (Qcltb a (qc 1 10)); simpl; auto.
  destruct l as [|b]; simpl; auto.
  unfold fgt, fle, fge, flt. destruct (Qcltb (qc 10 1) b); reflexivity.
Qed.

Lemma sd_row_steps (S Q : list float) :
  length S = length Q ->
  (let m := map (isin qc_flags) Q in
   let S1 := map2 (fun (m : bool) x => if m then NaN else x) (map negb m) S in
   map2 (fun (m : bool) x => if m then NaN else x)
        (map (fun s => flt s (Fin (qc 1 10))) S1) S1)
  = mask_sd_row S Q.
Proof.
  cbv zeta. revert Q; induction S as [|s S IH]; intros [|q Q]; simpl; try discriminate; auto.
  intros H. injection H as H.
  change (mask_sd_row (s :: S) (q :: Q))
    with ((if keep_sd s q then s else NaN) :: mask_sd_row S Q).
  f_equal; [apply keep_sd_cell | apply IH; assumption].
Qed.

Lemma lai_row_steps (L S Q : list float) :
  length L = length Q -> length S = length Q ->
  (let m := map (isin qc_flags) Q in
   let L1 := map2 (fun (m : bool) x => if m then NaN else x) (map negb m) L in
   let L2 := map2 (fun (m : bool) x => if m then NaN else x)
                  (map isnan (mask_sd_row S Q)) L1 in
   map2 (fun (m : bool) x => if m then NaN else x)
        (map (fun l => fgt l (Fin (qc 10 1))) L2) L2)
  = mask_lai_row L S Q.
Proof.
  cbv zeta. revert S Q; induction L as [|l L IH]; intros [|s S] [|q Q]; simpl;
    try discriminate; auto.
  intros H1 H2. injection H1 as H1. injection H2 as H2.
  change (mask_lai_row (l :: L) (s :: S) (q :: Q))
    with ((if keep_mask l s q then l else NaN) :: mask_lai_row L S Q).
  change (mask_sd_row (s :: S) (q :: Q))
    with ((if keep_sd s q then s else NaN) :: mask_sd_row S Q).
  simpl. f_equal; [apply keep_mask_cell | apply IH; assumption].
Qed.

Lemma mask_sd_row_length (S Q : list float) :
  length S = length Q -> length (mask_sd_row S Q) = length Q.
Proof. intros H. unfold mask_sd_row. rewrite map2_length. lia. Qed.

Lemma mask_lai_row_length (L S Q : list float) :
  length L = length Q -> length S = length Q -> length (mask_lai_row L S Q) = length Q.
Proof.
  intros H1 H2. unfold mask_lai_row. rewrite map2_length, length_combine. lia.
Qed.

Lemma mask_sd_row_nth (S Q : list float) i :
  length S = length Q -> i < length Q ->
  nth i (mask_sd_row S Q) NaN = if keep_sd (nth i S NaN) (nth i Q NaN) then nth i S NaN else NaN.
Proof.
  intros H Hi. unfold mask_sd_row.
  rewrite (nth_map2 _ S Q i NaN NaN) by lia. reflexivity.
Qed.

Lemma mask_lai_row_nth (L S Q : list float) i :
  length L = length Q -> length S = length Q -> i < length Q ->
  nth i (mask_lai_row L S Q) NaN
  = if keep_mask (nth i L NaN) (nth i S NaN) (nth i Q NaN) then nth i L NaN else NaN.
Proof.
  intros H1 H2 Hi. unfold mask_lai_row.
  rewrite (nth_map2 _ L (combine S Q) i NaN (NaN, NaN)) by (rewrite ?length_combine; lia).
  rewrite combine_nth by assumption. reflexivity.
Qed.

(** The row-wise reading of the whole function: on arrays of one shape the
    call returns, and row [t] of each array it leaves and of the series it
    returns is computed from row [t] of the arguments alone. *)
Lemma get_spatial_weighted_LAI_rows (lai_pixel sd_pixel qc_pixel : grid) :
  same_shape qc_pixel lai_pixel = true ->
  same_shape qc_pixel sd_pixel = true ->
  exists out,
    get_spatial_weighted_LAI lai_pixel sd_pixel qc_pixel = Ok out
    /\ qc_pixel_after out = qc_pixel
    /\ length (lai_pixel_after out) = length qc_pixel
    /\ length (sd_pixel_after out) = length qc_pixel
    /\ length (weighted_lai out) = length qc_pixel
    /\ forall t,
        let L := nth t lai_pixel [] in
        let S := nth t sd_pixel [] in
        let Q := nth t qc_pixel [] in
        nth t (lai_pixel_after out) [] = mask_lai_row L S Q
        /\ nth t (sd_pixel_after out) [] = mask_sd_row S Q
        /\ (t < length qc_pixel ->
            nth t (weighted_lai out) NaN
            = nanmean (map2 fmul (mask_lai_row L S Q)
                         (row_weights (map (fun s => fdiv (Fin 1%Qc) (fmul s s))
                                           (mask_sd_row S Q))))).
Proof.
  intros Hl Hs.
  destruct (same_shape_rows _ _ Hl) as [HlN Hlr].
  destruct (same_shape_rows _ _ Hs) as [HsN Hsr].
  unfold get_spatial_weighted_LAI.
  rewrite !same_shape_gmap_l, Hl, Hs. simpl negb. cbv iota.
  set (m := gmap (isin qc_flags) qc_pixel).
  set (L1 := set_where (gmap negb m) NaN lai_pixel).
  set (S1 := set_where (gmap negb m) NaN sd_pixel).
  set (S2 := set_where (gmap (fun s => flt s (Fin (qc 1 10))) S1) NaN S1).
  set (L2 := set_where (gmap isnan S2) NaN L1).
  set (L3 := set_where (gmap (fun l => fgt l (Fin (qc 10 1))) L2) NaN L2).
  cbv zeta.
  assert (Hsd : forall t, nth t S2 [] = mask_sd_row (nth t sd_pixel []) (nth t qc_pixel [])).
  { intros t. subst S2 S1 m. rewrite !row_set_where, !row_gmap, !row_set_where, !row_gmap.
    apply sd_row_steps. symmetry; apply Hsr. }
  assert (Hlai : forall t,
    nth t L3 [] = mask_lai_row (nth t lai_pixel []) (nth t sd_pixel []) (nth t qc_pixel [])).
  { intros t. subst L3. rewrite row_set_where, row_gmap.
    subst L2. rewrite row_set_where, row_gmap, Hsd.
    subst L1 m. rewrite row_set_where, !row_gmap.
    apply lai_row_steps; symmetry; [apply Hlr | apply Hsr]. }
  assert (HnS : length S2 = length qc_pixel).
  { subst S2 S1 m. unfold set_where, gmap2, gmap.
    rewrite ?map2_length, ?length_map, ?map2_length, ?length_map. lia. }
  assert (HnL : length L3 = length qc_pixel).
  { subst L3 L2. unfold set_where at 1 2, gmap2, gmap.
    rewrite ?map2_length, ?length_map, ?map2_length, ?length_map, HnS.
    subst L1 m. unfold set_where, gmap2, gmap.
    rewrite ?map2_length, ?length_map. lia. }
  assert (HnW : length (gmap2 fmul L3 (weights_of S2)) = length qc_pixel).
  { unfold gmap2, weights_of, inverse_variance, gmap.
    rewrite map2_length, !length_map. lia. }
  eexists; split; [reflexivity|]. simpl.
  rewrite length_map.
  repeat split; auto.
  intros Ht.
  rewrite (nth_map_in nanmean _ t []) by lia.
  rewrite row_gmap2, Hlai.
  unfold weights_of, inverse_variance.
  rewrite (nth_map_in row_weights _ t []).
  2:{ unfold gmap. rewrite length_map. lia. }
  rewrite row_gmap, Hsd. reflexivity.
Qed.

(** ** Stage 2: the claims *)

Lemma same_shape_intro {A B : Type} (a : list (list A)) (b : list (list B)) :
  length a = length b ->
  (forall t, length (nth t a []) = length (nth t b [])) ->
  same_shape a b = true.
Proof.
  intros Hn Hr. unfold same_shape. apply nat_list_eqb_eq.
  revert b Hn Hr; induction a as [|r a IH]; intros [|r2 b]; simpl; try discriminate; auto.
  intros Hn Hr. injection Hn as Hn. f_equal.
  - apply (Hr 0).
  - apply IH; auto. intros t. apply (Hr (S t)).
Qed.

Lemma nanmean_all_nan (l : list float) :
  (forall x, In x l -> x = NaN) -> nanmean l = NaN.
Proof.
  intros H. unfold nanmean.
  assert (Hc : count_valid l = 0).
  { unfold count_valid. induction l as [|x l IH]; simpl; auto.
    rewrite (H x) by (left; reflexivity). simpl. apply IH.
    intros y Hy. apply H. right; assumption. }
  rewrite Hc. reflexivity.
Qed.

Lemma in_map2_l {A B C : Type} (f : A -> B -> C) l1 l2 z :
  In z (map2 f l1 l2) -> exists x y, In x l1 /\ In y l2 /\ z = f x y.
Proof.
  revert l2; induction l1 as [|a l1 IH]; intros [|b l2]; simpl; try tauto.
  intros [<-|H].
  - exists a, b; auto.
  - destruct (IH _ H) as (x & y & Hx & Hy & ->). exists x, y; auto.
Qed.

Lemma mask_lai_row_all_nan (L S Q : list float) :
  length L = length Q -> length S = length Q ->
  (forall i, i < length Q -> keep_mask (nth i L NaN) (nth i S NaN) (nth i Q NaN) = false) ->
  forall x, In x (mask_lai_row L S Q) -> x = NaN.
Proof.
  intros HL HS Hk x Hx.
  destruct (In_nth _ _ NaN Hx) as (i & Hi & <-).
  rewrite mask_lai_row_length in Hi by assumption.
  rewrite mask_lai_row_nth by assumption.
  rewrite Hk by assumption. reflexivity.
Qed.

(** C1 (code defect).  One time step whose nine pixels all pass the mask with
    standard deviation 0.5 and LAI 3.0: the weights are 1/9 each and sum to 1,
    but the returned value is 1/3, the mean of the nine products
    weight x LAI, not their sum 3.0. *)
Theorem C1_all_good_row_returns_a_third :
  exists out,
    get_spatial_weighted_LAI lai_const sd_half qc_good = Ok out
    /\ weights_of (sd_pixel_after out) = [nine (Fin (qc 1 9))]
    /\ map nansum (gmap2 fmul (lai_pixel_after out) (weights_of (sd_pixel_after out)))
       = [fz 3]
    /\ weighted_lai out = [Fin (qc 1 3)].
Proof.
  eexists. split; [reflexivity|]. repeat split; canon_eq.
Qed.

(** C3 (code defect).  A cell with LAI 11 fails the keep-mask and its LAI is
    set to missing, but its standard deviation is left in place: the other
    eight pixels get weight 1/9 instead of 1/8, and changing the failing
    cell's standard deviation from 0.5 to 0.1 changes the returned value. *)
Theorem C3_lai_ceiling_cell_keeps_its_weight :
  keep_mask (fz 11) (Fin (qc 1 2)) (fz 0) = false
  /\ exists out out',
      get_spatial_weighted_LAI lai_ceiling sd_half qc_good = Ok out
      /\ get_spatial_weighted_LAI lai_ceiling sd_tenth_first qc_good = Ok out'
      /\ cell (lai_pixel_after out) 0 0 = NaN
      /\ cell (sd_pixel_after out) 0 0 = Fin (qc 1 2)
      /\ weights_of (sd_pixel_after out) = [nine (Fin (qc 1 9))]
      /\ weighted_lai out = [Fin (qc 1 3)]
      /\ weighted_lai out' = [Fin (qc 1 11)].
Proof.
  split; [reflexivity|].
  eexists. eexists. split; [reflexivity|]. split; [reflexivity|].
  repeat split; canon_eq.
Qed.

(** C10 (counterexample).  With QC 255 on every pixel the call overwrites the
    LAI and standard-deviation arrays it was given: both differ from the
    arguments afterwards. *)
Lemma C10_inputs_are_overwritten :
  exists out,
    get_spatial_weighted_LAI lai_const sd_half qc_255 = Ok out
    /\ lai_pixel_after out <> lai_const
    /\ sd_pixel_after out <> sd_half.
Proof.
  eexists. split; [reflexivity|]. split; vm_compute; discriminate.
Qed.

(** C10 (amended).  On three arrays of one shape the aggregator returns and
    leaves the QC array as it was; the LAI and standard-deviation arrays keep
    their shape and are overwritten in place: a cell that passes the
    keep-mask keeps its value in both arrays, a cell that fails it is missing
    in the LAI array, and a cell whose QC flag is rejected or whose standard
    deviation is below 0.1 is missing in the standard-deviation array. *)
Theorem C10_aggregator_overwrites_lai_and_sd (lai_pixel sd_pixel qc_pixel : grid) :
  same_shape qc_pixel lai_pixel = true ->
  same_shape qc_pixel sd_pixel = true ->
  exists out,
    get_spatial_weighted_LAI lai_pixel sd_pixel qc_pixel = Ok out
    /\ qc_pixel_after out = qc_pixel
    /\ same_shape (lai_pixel_after out) lai_pixel = true
    /\ same_shape (sd_pixel_after out) sd_pixel = true
    /\ forall t i, t < length qc_pixel -> i < length (nth t qc_pixel []) ->
        (keep_mask (cell lai_pixel t i) (cell sd_pixel t i) (cell qc_pixel t i) = true ->
           cell (lai_pixel_after out) t i = cell lai_pixel t i
           /\ cell (sd_pixel_after out) t i = cell sd_pixel t i)
        /\ (keep_mask (cell lai_pixel t i) (cell sd_pixel t i) (cell qc_pixel t i) = false ->
           cell (lai_pixel_after out) t i = NaN)
        /\ (isin qc_flags (cell qc_pixel t i) = false
            \/ fge (cell sd_pixel t i) (Fin (qc 1 10)) = false ->
           cell (sd_pixel_after out) t i = NaN).
Proof.
  intros Hl Hs.
  destruct (same_shape_rows _ _ Hl) as [HlN Hlr].
  destruct (same_shape_rows _ _ Hs) as [HsN Hsr].
  destruct (get_spatial_weighted_LAI_rows lai_pixel sd_pixel qc_pixel Hl Hs)
    as (out & Hout & Hqc & HnL & HnS & _ & Hrows).
  exists out. split; [assumption|]. split; [assumption|].
  split; [|split].
  - apply same_shape_intro; [lia|]. intros t.
    destruct (Hrows t) as (-> & _ & _).
    rewrite mask_lai_row_length; auto.
  - apply same_shape_intro; [lia|]. intros t.
    destruct (Hrows t) as (_ & -> & _).
    rewrite mask_sd_row_length; auto.
  - intros t i Ht Hi. unfold cell.
    destruct (Hrows t) as (-> & -> & _).
    rewrite mask_lai_row_nth, mask_sd_row_nth by auto.
    split; [|split].
    + intros Hk. rewrite Hk. split; [reflexivity|].
      unfold keep_mask in Hk. apply andb_true_iff in Hk. destruct Hk as [Hk _].
      unfold keep_sd. rewrite Hk. reflexivity.
    + intros Hk. rewrite Hk. reflexivity.
    + intros Hk. unfold keep_sd.
      destruct Hk as [-> | ->]; [reflexivity | rewrite andb_false_r; reflexivity].
Qed.

Lemma C10_aggregator_overwrites_lai_and_sd_witness :
  exists out,
    get_spatial_weighted_LAI lai_five sd_five qc_five = Ok out
    /\ qc_pixel_after out = qc_five
    /\ same_shape (lai_pixel_after out) lai_five = true
    /\ same_shape (sd_pixel_after out) sd_five = true
    /\ forall t i, t < length qc_five -> i < length (nth t qc_five []) ->
        (keep_mask (cell lai_five t i) (cell sd_five t i) (cell qc_five t i) = true ->
           cell (lai_pixel_after out) t i = cell lai_five t i
           /\ cell (sd_pixel_after out) t i = cell sd_five t i)
        /\ (keep_mask (cell lai_five t i) (cell sd_five t i) (cell qc_five t i) = false ->
           cell (lai_pixel_after out) t i = NaN)
        /\ (isin qc_flags (cell qc_five t i) = false
            \/ fge (cell sd_five t i) (Fin (qc 1 10)) = false ->
           cell (sd_pixel_after out) t i = NaN).
Proof.
  apply (C10_aggregator_overwrites_lai_and_sd lai_five sd_five qc_five);
    reflexivity.
Defined.

(** ** Stage 3: the interpolator *)

Lemma assign_where_length (mask : list bool) (src dst : list float) :
  length mask = length dst -> length src = length dst ->
  length (assign_where mask src dst) = length dst.
Proof.
  revert src dst; induction mask as [|m mask IH]; intros [|s src] [|d dst]; simpl;
    try discriminate; auto;
    intros H1 H2; injection H1 as H1; injection H2 as H2; f_equal; apply IH; assumption.
Qed.

Lemma assign_where_nth (mask : list bool) (src dst : list float) i :
  length mask = length dst -> length src = length dst -> i < length dst ->
  nth i (assign_where mask src dst) NaN
  = if nth i mask false then nth i src NaN else nth i dst NaN.
Proof.
  revert src dst i; induction mask as [|m mask IH]; intros [|s src] [|d dst] [|i]; simpl;
    try discriminate; try lia; auto.
  intros H1 H2 Hi. injection H1 as H1. injection H2 as H2. apply IH; auto. lia.
Qed.

Lemma arange_length n : length (arange n) = n.
Proof. unfold arange. rewrite length_map, length_seq. reflexivity. Qed.

Lemma arange_nth n i : i < n -> nth i (arange n) 0%Z = Z.of_nat i.
Proof.
  intros Hi. unfold arange.
  rewrite (nth_map_in Z.of_nat _ i 0) by (rewrite length_seq; lia).
  rewrite seq_nth by lia. reflexivity.
Qed.

Lemma Qcltb_true_lt (a b : Qc) : Qcltb a b = true -> (a < b)%Qc.
Proof.
  unfold Qcltb. intros H. apply Qclt_alt.
  destruct (a ?= b)%Qc; [discriminate | reflexivity | discriminate].
Qed.

Lemma Qcltb_false_le (a b : Qc) : Qcltb a b = false -> (b <= a)%Qc.
Proof.
  intros H. apply Qcnot_lt_le. intros Hlt.
  pose proof (proj1 (Qclt_alt a b) Hlt) as E.
  unfold Qcltb in H. rewrite E in H. discriminate.
Qed.

Lemma clamp0_nonneg (v : float) :
  isnan v = false -> exists q, clamp0 v = Fin q /\ (0 <= q)%Qc.
Proof.
  destruct v as [|a]; simpl; [discriminate|]. intros _.
  unfold clamp0, flt. destruct (Qcltb a 0) eqn:E.
  - exists 0%Qc. split; [reflexivity | apply Qcle_refl].
  - exists a. split; [reflexivity | apply Qcltb_false_le; assumption].
Qed.

Lemma Fin_inj (a b : Qc) : Fin a = Fin b -> a = b.
Proof. intros H; injection H as H; exact H. Qed.

Lemma clamp0_cases (v : Qc) :
  ((0 <= v)%Qc -> clamp0 (Fin v) = Fin v)
  /\ ((v < 0)%Qc -> clamp0 (Fin v) = Fin 0%Qc).
Proof.
  unfold clamp0, flt. destruct (Qcltb v 0) eqn:E; split; intros H; try reflexivity.
  - apply Qcltb_true_lt in E. exfalso. apply (Qcle_not_lt _ _ H E).
  - apply Qcltb_false_le in E. exfalso. apply (Qcle_not_lt _ _ E H).
Qed.

Lemma count_valid_cons (x : float) (l : list float) :
  count_valid (x :: l) = if isnan x then count_valid l else S (count_valid l).
Proof. unfold count_valid. simpl. destruct (isnan x); reflexivity. Qed.

(** The points handed to interp1d: the non-missing cells with their indices,
    in increasing order of the index. *)
Lemma known_from_In (k : Z) (l : list float) (z : Z) (v : Qc) :
  In (z, v) (known_from k l)
  <-> exists i, z = (k + Z.of_nat i)%Z /\ nth_error l i = Some (Fin v).
Proof.
  revert k; induction l as [|x l IH]; intros k.
  - split; [intros [] | intros (i & _ & H); destruct i; discriminate H].
  - destruct x as [|a].
    + change (known_from k (NaN :: l)) with (known_from (k + 1) l). rewrite IH. split.
      * intros (i & -> & H). exists (S i). split; [lia | exact H].
      * intros (i & -> & H). destruct i as [|i]; [discriminate H|].
        exists i. split; [lia | exact H].
    + change (known_from k (Fin a :: l)) with ((k, a) :: known_from (k + 1) l).
      split.
      * intros [E | H].
        -- injection E as <- <-. exists 0. split; [lia | reflexivity].
        -- apply IH in H. destruct H as (i & -> & H).
           exists (S i). split; [lia | exact H].
      * intros (i & -> & H). destruct i as [|i].
        -- left. change (Some (Fin a) = Some (Fin v)) in H.
           injection H as ->. f_equal. lia.
        -- right. apply IH. exists i. split; [lia | exact H].
Qed.

Lemma known_points_In (l : list float) (i : nat) (v : Qc) :
  In (Z.of_nat i, v) (known_points l) <-> nth_error l i = Some (Fin v).
Proof.
  unfold known_points. rewrite known_from_In. split.
  - intros (j & Hj & H). replace i with j by lia. exact H.
  - intros H. exists i. split; [lia | exact H].
Qed.

Lemma known_from_sorted (k : Z) (l : list float) :
  StronglySorted Z.lt (map fst (known_from k l)).
Proof.
  revert k; induction l as [|x l IH]; intros k; [constructor|].
  destruct x as [|a].
  - apply IH.
  - change (known_from k (Fin a :: l)) with ((k, a) :: known_from (k + 1) l).
    simpl map. constructor; [apply IH|].
    apply Forall_forall. intros z Hz. apply in_map_iff in Hz.
    destruct Hz as ((z' & v) & <- & Hin). apply known_from_In in Hin.
    destruct Hin as (i & -> & _). simpl. lia.
Qed.

Lemma known_from_length (k : Z) (l : list float) :
  length (known_from k l) = count_valid l.
Proof.
  revert k; induction l as [|x l IH]; intros k; [reflexivity|].
  rewrite count_valid_cons. destruct x as [|a]; simpl; rewrite IH; reflexivity.
Qed.

Lemma in_removelast {A : Type} (l : list A) x : In x (removelast l) -> In x l.
Proof.
  induction l as [|a l IH]; simpl; auto.
  destruct l as [|b l]; simpl in *; [tauto|].
  intros [H|H]; auto.
Qed.

Lemma removelast_length {A : Type} (l : list A) : length (removelast l) = length l - 1.
Proof.
  induction l as [|a l IH]; simpl; auto.
  destruct l as [|b l]; simpl in *; auto. rewrite IH. lia.
Qed.

Lemma removelast_nth {A : Type} (l : list A) i d :
  S i < length l -> nth i (removelast l) d = nth i l d.
Proof.
  revert i; induction l as [|a l IH]; intros i; simpl; [lia|].
  destruct l as [|b l]; simpl in *; [lia|].
  destruct i as [|i]; auto. intros H. apply IH. lia.
Qed.

Section InterpolatorFacts.

Variable interp1d : list Z -> list Qc -> outcome (Z -> Qc).

Lemma interpolated_length f u : length (interpolated f u) = length u.
Proof.
  unfold interpolated. apply assign_where_length.
  - apply length_map.
  - rewrite length_map. apply arange_length.
Qed.

Lemma interpolated_nth f u i :
  i < length u ->
  nth i (interpolated f u) NaN
  = match nth i u NaN with NaN => Fin (f (Z.of_nat i)) | Fin v => Fin v end.
Proof.
  intros Hi. unfold interpolated.
  rewrite assign_where_nth; auto.
  2: apply length_map.
  2: rewrite length_map; apply arange_length.
  rewrite (nth_map_in isnan _ i NaN) by assumption.
  destruct (nth i u NaN) eqn:E; simpl; auto.
  rewrite (nth_map_in _ _ i 0%Z) by (rewrite arange_length; assumption).
  rewrite arange_nth by assumption. reflexivity.
Qed.

Lemma interpolated_finite f u x : In x (interpolated f u) -> isnan x = false.
Proof.
  intros Hx. destruct (In_nth _ _ NaN Hx) as (i & Hi & <-).
  rewrite interpolated_length in Hi. rewrite interpolated_nth by assumption.
  destruct (nth i u NaN); reflexivity.
Qed.

Lemma interpolate_NA_LAI_result (unfilled_lai : list float) (f : Z -> Qc) :
  unfilled_lai <> [] ->
  interp1d (map fst (known_points unfilled_lai)) (map snd (known_points unfilled_lai)) = Ok f ->
  interpolate_NA_LAI interp1d unfilled_lai
  = Ok (removelast (map clamp0 (interpolated f unfilled_lai)) ++ [Fin 0%Qc]).
Proof.
  intros Hne Hf. unfold interpolate_NA_LAI. rewrite Hf. simpl.
  fold (interpolated f unfilled_lai).
  unfold set_last.
  destruct (map clamp0 (interpolated f unfilled_lai)) eqn:E; [|reflexivity].
  apply (f_equal (@length float)) in E.
  rewrite length_map, interpolated_length in E.
  destruct unfilled_lai; [congruence | discriminate].
Qed.

End InterpolatorFacts.

Lemma interpolate_NA_LAI_raises
  (interp1d : list Z -> list Qc -> outcome (Z -> Qc)) (unfilled_lai : list float) (e : exn) :
  interp1d (map fst (known_points unfilled_lai)) (map snd (known_points unfilled_lai)) = Err e ->
  interpolate_NA_LAI interp1d unfilled_lai = Err e.
Proof. intros H. unfold interpolate_NA_LAI. cbv zeta. rewrite H. reflexivity. Qed.

(** The cell [i] of the returned series, before the last one. *)
Lemma interpolate_NA_LAI_cell
  (f : Z -> Qc) (unfilled_lai : list float) (i : nat) :
  S i < length unfilled_lai ->
  nth i (removelast (map clamp0 (interpolated f unfilled_lai)) ++ [Fin 0%Qc]) NaN
  = clamp0 (match nth i unfilled_lai NaN with
            | NaN => Fin (f (Z.of_nat i))
            | Fin v => Fin v
            end).
Proof.
  intros Hi.
  assert (Hlen : length (map clamp0 (interpolated f unfilled_lai)) = length unfilled_lai)
    by (rewrite length_map; apply interpolated_length).
  rewrite app_nth1 by (rewrite removelast_length, Hlen; lia).
  rewrite removelast_nth by lia.
  rewrite (nth_map_in clamp0 _ i NaN) by (rewrite interpolated_length; lia).
  rewrite interpolated_nth by lia. reflexivity.
Qed.

Lemma interp1d_lagrange_cubic : cubic_interp1d interp1d_lagrange.
Proof.
  intros xs ys _. unfold interp1d_lagrange. split.
  - intros H. apply Nat.ltb_lt in H. rewrite H. eexists; reflexivity.
  - intros H _. apply Nat.ltb_ge in H. rewrite H. eexists; reflexivity.
Qed.

(** C5.  Whenever interp1d builds the cubic interpolant [f] of the
    non-missing index/value pairs of a non-empty series (the pairs (i, v)
    with cell [i] holding the number [v], by increasing [i]), the
    interpolator returns an array of the same length in which every cell
    before the last holds the original value [v] when it is not below 0, the
    value [f i] where the cell was missing and [f i] is not below 0, and 0
    where that value is below 0; the last cell is exactly 0; and every cell
    is a number that is not below 0. *)
Theorem C5_interpolate_dense_nonnegative_last_zero
  (interp1d : list Z -> list Qc -> outcome (Z -> Qc))
  (unfilled_lai : list float) (f : Z -> Qc) :
  unfilled_lai <> [] ->
  interp1d (map fst (known_points unfilled_lai)) (map snd (known_points unfilled_lai)) = Ok f ->
  exists filled_lai,
    interpolate_NA_LAI interp1d unfilled_lai = Ok filled_lai
    /\ length filled_lai = length unfilled_lai
    /\ (forall i v, S i < length unfilled_lai -> nth i unfilled_lai NaN = Fin v ->
          ((0 <= v)%Qc -> nth i filled_lai NaN = Fin v)
          /\ ((v < 0)%Qc -> nth i filled_lai NaN = Fin 0%Qc))
    /\ (forall i, S i < length unfilled_lai -> nth i unfilled_lai NaN = NaN ->
          ((0 <= f (Z.of_nat i))%Qc -> nth i filled_lai NaN = Fin (f (Z.of_nat i)))
          /\ ((f (Z.of_nat i) < 0)%Qc -> nth i filled_lai NaN = Fin 0%Qc))
    /\ last filled_lai NaN = Fin 0%Qc
    /\ (forall v, In v filled_lai -> exists q, v = Fin q /\ (0 <= q)%Qc)
    /\ (forall i v, In (Z.of_nat i, v) (known_points unfilled_lai)
                    <-> nth_error unfilled_lai i = Some (Fin v))
    /\ StronglySorted Z.lt (map fst (known_points unfilled_lai)).
Proof.
  intros Hne Hf.
  eexists. split; [apply interpolate_NA_LAI_result; eassumption|].
  assert (Hlen : length (map clamp0 (interpolated f unfilled_lai)) = length unfilled_lai)
    by (rewrite length_map; apply interpolated_length).
  assert (Hpos : 0 < length unfilled_lai)
    by (destruct unfilled_lai; [congruence | simpl; lia]).
  split; [|split; [|split; [|split; [|split; [|split]]]]].
  - rewrite length_app, removelast_length, Hlen. simpl. lia.
  - intros i v Hi Hv. rewrite interpolate_NA_LAI_cell by assumption. rewrite Hv.
    apply clamp0_cases.
  - intros i Hi Hv. rewrite interpolate_NA_LAI_cell by assumption. rewrite Hv.
    apply clamp0_cases.
  - apply last_last.
  - intros v Hv. apply in_app_or in Hv. destruct Hv as [Hv|[<-|[]]].
    + apply in_removelast, in_map_iff in Hv. destruct Hv as (x & <- & Hx).
      apply clamp0_nonneg. eapply interpolated_finite; eassumption.
    + exists 0%Qc. split; [reflexivity | apply Qcle_refl].
  - intros i v. apply known_points_In.
  - apply known_from_sorted.
Qed.

Lemma C5_interpolate_dense_nonnegative_last_zero_witness :
  let f := lagrange_sum [0; 2; 3; 4]%Z [0; 2; 3; 4]%Z [qc 1 1; qc 2 1; qc 4 1; qc 8 1] in
  exists filled_lai,
    interpolate_NA_LAI interp1d_lagrange series_gaps = Ok filled_lai
    /\ length filled_lai = length series_gaps
    /\ (forall i v, S i < length series_gaps -> nth i series_gaps NaN = Fin v ->
          ((0 <= v)%Qc -> nth i filled_lai NaN = Fin v)
          /\ ((v < 0)%Qc -> nth i filled_lai NaN = Fin 0%Qc))
    /\ (forall i, S i < length series_gaps -> nth i series_gaps NaN = NaN ->
          ((0 <= f (Z.of_nat i))%Qc -> nth i filled_lai NaN = Fin (f (Z.of_nat i)))
          /\ ((f (Z.of_nat i) < 0)%Qc -> nth i filled_lai NaN = Fin 0%Qc))
    /\ last filled_lai NaN = Fin 0%Qc
    /\ (forall v, In v filled_lai -> exists q, v = Fin q /\ (0 <= q)%Qc)
    /\ (forall i v, In (Z.of_nat i, v) (known_points series_gaps)
                    <-> nth_error series_gaps i = Some (Fin v))
    /\ StronglySorted Z.lt (map fst (known_points series_gaps)).
Proof.
  apply (C5_interpolate_dense_nonnegative_last_zero interp1d_lagrange series_gaps).
  - discriminate.
  - reflexivity.
Defined.

(** C4 (counterexample).  One time step with QC 255 on every pixel: the
    aggregator returns the one-cell series [NaN], which has no non-missing
    point, and the interpolator raises on it instead of returning a series,
    with the sample interp1d and with every interp1d that refuses fewer than
    four points. *)
Lemma C4_single_masked_step_raises :
  exists out,
    get_spatial_weighted_LAI lai_const sd_half qc_255 = Ok out
    /\ weighted_lai out = [NaN]
    /\ (exists e, interpolate_NA_LAI interp1d_lagrange (weighted_lai out) = Err e)
    /\ ~ exists interp1d filled_lai,
           cubic_interp1d interp1d
           /\ interpolate_NA_LAI interp1d (weighted_lai out) = Ok filled_lai.
Proof.
  eexists. split; [reflexivity|]. split; [reflexivity|].
  split; [eexists; reflexivity|].
  intros (interp1d & filled_lai & Hc & H).
  destruct (Hc [] [] eq_refl) as [Hlt _].
  destruct Hlt as (e & He); [simpl; lia|].
  change (interpolate_NA_LAI interp1d [NaN] = Ok filled_lai) in H.
  rewrite (interpolate_NA_LAI_raises interp1d [NaN] e He) in H. discriminate H.
Qed.

(** C4 (amended).  On arrays of one shape the aggregator returns (no
    exception), and at every time step whose pixels all fail the keep-mask
    the returned series holds the missing marker NaN, not 0.  The
    interpolator takes that series as it is.  When at least four of its time
    steps hold a number, interp1d builds the interpolant [f] of these and the
    interpolator returns a series of the same length whose cell at the masked
    step is a number: [f] there when that is not below 0, and 0 when it is or
    when the step is the last one.  When fewer than four time steps hold a
    number the interpolator raises an exception. *)
Theorem C4_all_masked_step_is_missing
  (interp1d : list Z -> list Qc -> outcome (Z -> Qc))
  (lai_pixel sd_pixel qc_pixel : grid) (t : nat) :
  cubic_interp1d interp1d ->
  same_shape qc_pixel lai_pixel = true ->
  same_shape qc_pixel sd_pixel = true ->
  t < length qc_pixel ->
  (forall i, i < length (nth t qc_pixel []) ->
     keep_mask (cell lai_pixel t i) (cell sd_pixel t i) (cell qc_pixel t i) = false) ->
  exists out,
    get_spatial_weighted_LAI lai_pixel sd_pixel qc_pixel = Ok out
    /\ length (weighted_lai out) = length qc_pixel
    /\ nth_error (weighted_lai out) t = Some NaN
    /\ nth_error (weighted_lai out) t <> Some (Fin 0%Qc)
    /\ (4 <= count_valid (weighted_lai out) ->
        exists f filled_lai q,
          interp1d (map fst (known_points (weighted_lai out)))
                   (map snd (known_points (weighted_lai out))) = Ok f
          /\ interpolate_NA_LAI interp1d (weighted_lai out) = Ok filled_lai
          /\ length filled_lai = length qc_pixel
          /\ nth_error filled_lai t = Some (Fin q)
          /\ (S t < length qc_pixel -> (0 <= f (Z.of_nat t))%Qc -> q = f (Z.of_nat t))
          /\ (S t < length qc_pixel -> (f (Z.of_nat t) < 0)%Qc -> q = 0%Qc)
          /\ (S t = length qc_pixel -> q = 0%Qc))
    /\ (count_valid (weighted_lai out) < 4 ->
        exists e, interpolate_NA_LAI interp1d (weighted_lai out) = Err e).
Proof.
  intros Hc Hl Hs Ht Hk.
  destruct (same_shape_rows _ _ Hl) as [HlN Hlr].
  destruct (same_shape_rows _ _ Hs) as [HsN Hsr].
  destruct (get_spatial_weighted_LAI_rows lai_pixel sd_pixel qc_pixel Hl Hs)
    as (out & Hout & _ & _ & _ & HnW & Hrows).
  exists out. split; [assumption|]. split; [assumption|].
  assert (Hnan : nth t (weighted_lai out) NaN = NaN).
  { destruct (Hrows t) as (_ & _ & Hw). rewrite (Hw Ht).
    apply nanmean_all_nan. intros x Hx.
    apply in_map2_l in Hx. destruct Hx as (l & w & Hin & _ & ->).
    rewrite (mask_lai_row_all_nan _ _ _ (eq_sym (Hlr t)) (eq_sym (Hsr t)) Hk l Hin).
    reflexivity. }
  assert (Herr : nth_error (weighted_lai out) t = Some NaN).
  { rewrite (nth_error_nth' _ NaN) by lia. rewrite Hnan. reflexivity. }
  split; [assumption|]. split; [rewrite Herr; discriminate|].
  assert (Hpts : length (map snd (known_points (weighted_lai out)))
                 = length (map fst (known_points (weighted_lai out))))
    by (rewrite !length_map; reflexivity).
  assert (Hcount : length (map fst (known_points (weighted_lai out)))
                   = count_valid (weighted_lai out))
    by (rewrite length_map; apply known_from_length).
  destruct (Hc _ _ Hpts) as [Hfew Hmany]. rewrite Hcount in Hfew, Hmany.
  split.
  - intros H4. destruct (Hmany H4 (known_from_sorted 0 _)) as (f & Hf).
    assert (Hne : weighted_lai out <> []).
    { intros E. rewrite E in HnW. simpl in HnW. lia. }
    assert (Hlen : length (map clamp0 (interpolated f (weighted_lai out))) = length qc_pixel)
      by (rewrite length_map, interpolated_length; assumption).
    destruct (Nat.lt_ge_cases (S t) (length qc_pixel)) as [E|E].
    + destruct (clamp0_nonneg (Fin (f (Z.of_nat t))) eq_refl) as (q & Hq & _).
      exists f, (removelast (map clamp0 (interpolated f (weighted_lai out))) ++ [Fin 0%Qc]), q.
      split; [exact Hf|].
      split; [apply interpolate_NA_LAI_result; assumption|].
      split; [rewrite length_app, removelast_length, Hlen; simpl; lia|].
      split.
      { rewrite (nth_error_nth' _ NaN)
          by (rewrite length_app, removelast_length, Hlen; simpl; lia).
        rewrite interpolate_NA_LAI_cell by lia. rewrite Hnan, Hq. reflexivity. }
      destruct (clamp0_cases (f (Z.of_nat t))) as [Hge Hlt].
      split; [|split].
      * intros _ H0. rewrite (Hge H0) in Hq. apply Fin_inj in Hq. symmetry; exact Hq.
      * intros _ H0. rewrite (Hlt H0) in Hq. apply Fin_inj in Hq. symmetry; exact Hq.
      * intros E'. lia.
    + exists f, (removelast (map clamp0 (interpolated f (weighted_lai out))) ++ [Fin 0%Qc]),
        0%Qc.
      split; [exact Hf|].
      split; [apply interpolate_NA_LAI_result; assumption|].
      split; [rewrite length_app, removelast_length, Hlen; simpl; lia|].
      split.
      { rewrite nth_error_app2 by (rewrite removelast_length, Hlen; lia).
        rewrite removelast_length, Hlen.
        replace (t - (length qc_pixel - 1)) with 0 by lia. reflexivity. }
      split; [intros E'; lia|]. split; [intros E'; lia | reflexivity].
  - intros Hlt. destruct (Hfew Hlt) as (e & He).
    exists e. apply interpolate_NA_LAI_raises. exact He.
Qed.

Lemma C4_all_masked_step_is_missing_witness :
  exists out,
    get_spatial_weighted_LAI lai_five sd_five qc_five = Ok out
    /\ length (weighted_lai out) = length qc_five
    /\ nth_error (weighted_lai out) 2 = Some NaN
    /\ nth_error (weighted_lai out) 2 <> Some (Fin 0%Qc)
    /\ (4 <= count_valid (weighted_lai out) ->
        exists f filled_lai q,
          interp1d_lagrange (map fst (known_points (weighted_lai out)))
                            (map snd (known_points (weighted_lai out))) = Ok f
          /\ interpolate_NA_LAI interp1d_lagrange (weighted_lai out) = Ok filled_lai
          /\ length filled_lai = length qc_five
          /\ nth_error filled_lai 2 = Some (Fin q)
          /\ (3 < length qc_five -> (0 <= f 2%Z)%Qc -> q = f 2%Z)
          /\ (3 < length qc_five -> (f 2%Z < 0)%Qc -> q = 0%Qc)
          /\ (3 = length qc_five -> q = 0%Qc))
    /\ (count_valid (weighted_lai out) < 4 ->
        exists e, interpolate_NA_LAI interp1d_lagrange (weighted_lai out) = Err e).
Proof.
  apply (C4_all_masked_step_is_missing interp1d_lagrange lai_five sd_five qc_five 2).
  - exact interp1d_lagrange_cubic.
  - reflexivity.
  - reflexivity.
  - simpl; lia.
  - intros i Hi. simpl in Hi.
    do 9 (destruct i as [|i]; [reflexivity|]). lia.
Defined.

(** ** Stage 4: the calendar regularizer *)

Lemma date_range_8D_length (y : Z) : length (date_range_8D y) = 46.
Proof.
  unfold date_range_8D, days_in_year. rewrite length_map, length_seq.
  destruct (is_leap y); reflexivity.
Qed.

(** C2 (code defect).  Three fully observed years, 2003 to 2005: every
    calendar date is in the timestamps, the retained matrix (the year 2004)
    has no missing cell, and the call returns None instead of a pair. *)
Theorem C2_no_gap_returns_None :
  nan_positions (counting 138) = []
  /\ length (full_years 2003 2005) = 138
  /\ check_data_availability_LAI (counting 138) (full_years 2003 2005) = Ok None.
Proof.
  repeat split; vm_compute; reflexivity.
Qed.

(** Whenever the retained matrix has a cell and none of them is missing, the
    call returns None. *)
Lemma check_data_availability_LAI_no_gap
  (filled_lai : list float) (lai_time : list date) (temp_array : list float)
  (reshaped : matrix) :
  lai_time <> [] ->
  fill_temp_array (isin_dates (regular_calendar lai_time) lai_time) filled_lai 0
  = Ok temp_array ->
  reshape temp_array 46 = Ok reshaped ->
  flatten (drop_first_last reshaped) <> [] ->
  nan_positions (flatten (drop_first_last reshaped)) = [] ->
  check_data_availability_LAI filled_lai lai_time = Ok None.
Proof.
  intros Hne Htemp Hre Hcells Hpos. unfold check_data_availability_LAI.
  destruct lai_time as [|d0 rest]; [congruence|].
  cbv zeta. rewrite Htemp. unfold bind at 1. rewrite Hre. unfold bind at 1.
  rewrite Hpos.
  destruct (flatten (drop_first_last reshaped)); [congruence | reflexivity].
Qed.

(** The reads of the gap-fill loop at the two ends of the array: at position
    0 the left neighbour is the last cell, and no exception is raised; at the
    last position the right neighbour is out of range. *)
Lemma py_index_minus_one (a : list float) :
  a <> [] -> py_index a (-1) = Ok (nth (length a - 1) a NaN).
Proof.
  intros Hne. unfold py_index.
  assert (0 < length a) by (destruct a; [congruence | simpl; lia]).
  replace ((0 <=? -1) && (-1 <? Z.of_nat (length a)))%Z with false by reflexivity.
  replace ((- Z.of_nat (length a) <=? -1) && (-1 <? 0))%Z with true
    by (symmetry; apply andb_true_iff; split; [apply Z.leb_le; lia | reflexivity]).
  do 2 f_equal. lia.
Qed.

Lemma py_index_past_end (a : list float) :
  py_index a (Z.of_nat (length a)) = Err IndexError.
Proof.
  unfold py_index.
  replace ((0 <=? Z.of_nat (length a)) && (Z.of_nat (length a) <? Z.of_nat (length a)))%Z
    with false
    by (symmetry; apply andb_false_iff; right; apply Z.ltb_ge; lia).
  replace ((- Z.of_nat (length a) <=? Z.of_nat (length a)) && (Z.of_nat (length a) <? 0))%Z
    with false
    by (symmetry; apply andb_false_iff; right; apply Z.ltb_ge; lia).
  reflexivity.
Qed.

Lemma py_index_in_range (a : list float) (i : nat) :
  i < length a -> py_index a (Z.of_nat i) = Ok (nth i a NaN).
Proof.
  intros Hi. unfold py_index.
  replace ((0 <=? Z.of_nat i) && (Z.of_nat i <? Z.of_nat (length a)))%Z with true
    by (symmetry; apply andb_true_iff; split; [apply Z.leb_le | apply Z.ltb_lt]; lia).
  rewrite Nat2Z.id. reflexivity.
Qed.

Lemma fill_positions_first (a : list float) (ps : list nat) :
  2 <= length a ->
  fill_positions (0 :: ps) a
  = fill_positions ps
      (set_nth 0 (fdiv (fadd (nth (length a - 1) a NaN) (nth 1 a NaN)) (Fin (qc 2 1))) a).
Proof.
  intros Hn.
  assert (H1 : py_index a (Z.of_nat 0 - 1) = Ok (nth (length a - 1) a NaN))
    by (apply py_index_minus_one; destruct a; [simpl in Hn; lia | congruence]).
  assert (H2 : py_index a (Z.of_nat 0 + 1) = Ok (nth 1 a NaN))
    by (apply (py_index_in_range a 1); lia).
  change (fill_positions (0 :: ps) a)
    with (prev <- py_index a (Z.of_nat 0 - 1) ;;
          next <- py_index a (Z.of_nat 0 + 1) ;;
          fill_positions ps (set_nth 0 (fdiv (fadd prev next) (Fin (qc 2 1))) a)).
  rewrite H1, H2. reflexivity.
Qed.

Lemma fill_positions_last (a : list float) (ps : list nat) :
  a <> [] -> fill_positions ((length a - 1) :: ps) a = Err IndexError.
Proof.
  intros Hne.
  assert (Hpos : 0 < length a) by (destruct a; [congruence | simpl; lia]).
  assert (H2 : py_index a (Z.of_nat (length a - 1) + 1) = Err IndexError).
  { replace (Z.of_nat (length a - 1) + 1)%Z with (Z.of_nat (length a)) by lia.
    apply py_index_past_end. }
  change (fill_positions ((length a - 1) :: ps) a)
    with (prev <- py_index a (Z.of_nat (length a - 1) - 1) ;;
          next <- py_index a (Z.of_nat (length a - 1) + 1) ;;
          fill_positions ps
            (set_nth (length a - 1) (fdiv (fadd prev next) (Fin (qc 2 1))) a)).
  rewrite H2.
  destruct (py_index a (Z.of_nat (length a - 1) - 1)) as [prev|e] eqn:E; [reflexivity|].
  unfold py_index in E.
  repeat match type of E with
         | (if ?c then _ else _) = _ => destruct c; try discriminate E
         end.
  injection E as <-. reflexivity.
Qed.

(** C8 (code defect).  Years 2003 to 2005 with the single date 2004-01-01
    absent from the timestamps and values 0, 1, 2, ...: the retained row
    (2004) is missing at its first position, and the call returns without
    any exception; that cell is filled with 68, the average of the row's last
    cell (90, read through index -1) and its second cell (46).  With the last
    date of 2004 absent instead, the read one past the end raises
    IndexError. *)
Theorem C8_first_position_reads_the_last_cell :
  (exists m d,
      check_data_availability_LAI (counting 137)
        (without (mk_date 2004 0) (full_years 2003 2005)) = Ok (Some (m, d))
      /\ length (flatten m) = 46
      /\ nth 0 (flatten m) NaN = fz 68
      /\ nth 1 (flatten m) NaN = fz 46
      /\ nth 45 (flatten m) NaN = fz 90)
  /\ check_data_availability_LAI (counting 137)
       (without (mk_date 2004 360) (full_years 2003 2005)) = Err IndexError.
Proof.
  split.
  - eexists. eexists. split; [vm_compute; reflexivity|].
    repeat split; canon_eq.
  - vm_compute; reflexivity.
Qed.

(** ** Stage 5: rolling_mean and smoothing_LAI *)

Lemma firstn_skipn_window (a : list float) (lo k : nat) :
  lo + k <= length a ->
  firstn k (skipn lo a) = map (fun j => nth j a NaN) (seq lo k).
Proof.
  intros H. apply (nth_ext _ _ NaN NaN).
  - rewrite length_firstn, length_skipn, length_map, length_seq. lia.
  - intros j Hj. rewrite length_firstn, length_skipn in Hj.
    rewrite nth_firstn. replace (j <? k) with true by (symmetry; apply Nat.ltb_lt; lia).
    rewrite nth_skipn.
    rewrite (nth_map_in _ _ j 0) by (rewrite length_seq; lia).
    rewrite seq_nth by lia. reflexivity.
Qed.

Lemma rolling_mean_length (a : list float) (w : Z) : length (rolling_mean a w) = length a.
Proof. unfold rolling_mean. rewrite length_map. apply arange_length. Qed.

Lemma rolling_mean_13_nth (a : list float) (i : nat) :
  i < length a ->
  nth i (rolling_mean a 13) NaN
  = mean (window_through a (Nat.max 0 (i - 6)) (Nat.min (length a - 1) (i + 6))).
Proof.
  intros Hi. unfold rolling_mean.
  rewrite (nth_map_in _ _ i 0%Z) by (rewrite arange_length; assumption).
  rewrite arange_nth by assumption. cbv zeta. f_equal.
  change (13 / 2)%Z with 6%Z. change ((13 + 1) / 2)%Z with 7%Z.
  unfold slice, window_through. cbv zeta. simpl Nat.max.
  replace (slice_bound (length a) (Z.max 0 (Z.of_nat i - 6))) with (i - 6)
    by (unfold slice_bound; destruct (Z.ltb_spec (Z.max 0 (Z.of_nat i - 6)) 0); lia).
  replace (slice_bound (length a) (Z.min (Z.of_nat (length a)) (Z.of_nat i + 7)))
    with (Nat.min (length a) (i + 7))
    by (unfold slice_bound;
        destruct (Z.ltb_spec (Z.min (Z.of_nat (length a)) (Z.of_nat i + 7)) 0); lia).
  rewrite firstn_skipn_window by lia.
  f_equal. f_equal. lia.
Qed.

Lemma concat_length_rect (l : list (list float)) (nc : nat) :
  (forall r, In r l -> length r = nc) -> length (concat l) = length l * nc.
Proof.
  induction l as [|x l IH]; simpl; intros H; auto.
  rewrite length_app, IH, (H x); auto.
Qed.

Lemma concat_nth_rect (l : list (list float)) (nc y c : nat) :
  (forall r, In r l -> length r = nc) -> y < length l -> c < nc ->
  nth (y * nc + c) (concat l) NaN = nth c (nth y l []) NaN.
Proof.
  revert y; induction l as [|x l IH]; intros y H Hy Hc; simpl in Hy; [lia|].
  assert (Hx : length x = nc) by (apply H; left; reflexivity).
  simpl concat. destruct y as [|y].
  - simpl. apply app_nth1. lia.
  - change (S y * nc + c) with (nc + y * nc + c).
    rewrite app_nth2 by lia. rewrite Hx.
    replace (nc + y * nc + c - nc) with (y * nc + c) by lia.
    simpl nth. apply IH; [intros r Hr; apply H; right; assumption | lia | assumption].
Qed.

Lemma tile_length (a : list float) (k : nat) : length (tile a k) = k * length a.
Proof.
  unfold tile. rewrite (concat_length_rect _ (length a)).
  - rewrite repeat_length. reflexivity.
  - intros r Hr. apply repeat_spec in Hr. subst; reflexivity.
Qed.

Lemma tile_nth (a : list float) (k y c : nat) :
  y < k -> c < length a -> nth (y * length a + c) (tile a k) NaN = nth c a NaN.
Proof.
  intros Hy Hc. unfold tile. rewrite concat_nth_rect; auto.
  - rewrite nth_repeat_lt by assumption. reflexivity.
  - intros r Hr. apply repeat_spec in Hr. subst; reflexivity.
  - rewrite repeat_length. assumption.
Qed.

Lemma column_means_length (m : matrix) : length (column_means m) = ncols m.
Proof. unfold column_means. rewrite length_map, length_seq. reflexivity. Qed.

Lemma column_means_nth (m : matrix) (c : nat) :
  c < ncols m ->
  nth c (column_means m) NaN = nanmean (map (fun r => nth c r NaN) (rows m)).
Proof.
  intros Hc. unfold column_means.
  rewrite (nth_map_in _ _ c 0) by (rewrite length_seq; assumption).
  rewrite seq_nth by assumption. reflexivity.
Qed.

Lemma anomaly_rectangular (m : matrix) : rectangular m -> rectangular (anomaly_of m).
Proof.
  intros H r Hr. simpl in *. apply in_map_iff in Hr. destruct Hr as (x & <- & Hx).
  rewrite map2_length, column_means_length, (H x Hx). lia.
Qed.

Lemma anomaly_length (m : matrix) :
  rectangular m -> length (flatten (anomaly_of m)) = length (rows m) * ncols m.
Proof.
  intros H. unfold flatten.
  rewrite (concat_length_rect _ (ncols m)) by (apply (anomaly_rectangular m H)).
  simpl. rewrite length_map. reflexivity.
Qed.

Lemma anomaly_nth (m : matrix) (y c : nat) :
  rectangular m -> y < length (rows m) -> c < ncols m ->
  nth (y * ncols m + c) (flatten (anomaly_of m)) NaN
  = fsub (cell (rows m) y c) (nth c (column_means m) NaN).
Proof.
  intros H Hy Hc. unfold flatten.
  rewrite concat_nth_rect; auto.
  - simpl. rewrite (nth_map_in _ _ y []) by assumption.
    rewrite (nth_map2 _ _ _ c NaN NaN); auto.
    + rewrite (H (nth y (rows m) [])); auto. apply nth_In; assumption.
    + rewrite column_means_length; assumption.
  - apply (anomaly_rectangular m H).
  - simpl. rewrite length_map. assumption.
Qed.

Section SmootherFacts.

Variable savgol_filter : list float -> Z -> Z -> list float.

Lemma smoothing_LAI_result (m : matrix) :
  rectangular m ->
  length (savgol_filter (column_means m) 13%Z 3%Z) = ncols m ->
  smoothing_LAI savgol_filter m
  = Ok (map2 fadd (rolling_mean (flatten (anomaly_of m)) 13)
          (tile (savgol_filter (column_means m) 13%Z 3%Z) (length (rows m)))).
Proof.
  intros H Hs. unfold smoothing_LAI, broadcast.
  rewrite rolling_mean_length, tile_length, anomaly_length, Hs by assumption.
  simpl rows. rewrite length_map, Nat.eqb_refl. reflexivity.
Qed.

End SmootherFacts.

(** C6.  On a well-formed matrix, with a filter that returns an array of the
    length of its input: the climatology is the per-slot mean across the rows
    ignoring missing values; the filter is applied to it with window 13 and
    order 3; the anomaly is the matrix minus the raw per-slot means; and the
    cell of the result at year [y], slot [c] (flat index [i]) is the mean of
    the flattened anomaly over the entries [max(0, i-6)] through
    [min(n-1, i+6)] plus the smoothed climatology at slot [c]. *)
Theorem C6_smoothing_LAI_decomposition
  (savgol_filter : list float -> Z -> Z -> list float) (m : matrix) :
  rectangular m ->
  length (savgol_filter (column_means m) 13%Z 3%Z) = ncols m ->
  exists smoothed_lai,
    smoothing_LAI savgol_filter m = Ok smoothed_lai
    /\ length smoothed_lai = length (rows m) * ncols m
    /\ length (flatten (anomaly_of m)) = length (rows m) * ncols m
    /\ (forall c, c < ncols m ->
          nth c (column_means m) NaN = nanmean (map (fun r => nth c r NaN) (rows m)))
    /\ (forall y c, y < length (rows m) -> c < ncols m ->
          nth (y * ncols m + c) (flatten (anomaly_of m)) NaN
          = fsub (cell (rows m) y c) (nth c (column_means m) NaN))
    /\ (forall y c, y < length (rows m) -> c < ncols m ->
          nth (y * ncols m + c) smoothed_lai NaN
          = fadd (mean (window_through (flatten (anomaly_of m))
                          (Nat.max 0 (y * ncols m + c - 6))
                          (Nat.min (length (rows m) * ncols m - 1) (y * ncols m + c + 6))))
                 (nth c (savgol_filter (column_means m) 13%Z 3%Z) NaN)).
Proof.
  intros H Hs.
  pose proof (anomaly_length m H) as Ha.
  eexists. split; [apply smoothing_LAI_result; assumption|].
  split; [|split; [assumption|split; [|split]]].
  - rewrite map2_length, rolling_mean_length, tile_length, Ha, Hs. lia.
  - intros c Hc. apply column_means_nth; assumption.
  - intros y c Hy Hc. apply anomaly_nth; assumption.
  - intros y c Hy Hc.
    assert (Hi : y * ncols m + c < length (rows m) * ncols m) by nia.
    rewrite (nth_map2 _ _ _ _ NaN NaN).
    + rewrite rolling_mean_13_nth by lia. rewrite Ha.
      rewrite <- Hs at 4. rewrite tile_nth by lia. reflexivity.
    + rewrite rolling_mean_length; lia.
    + rewrite tile_length, Hs; lia.
Qed.

Lemma C6_smoothing_LAI_decomposition_witness :
  exists smoothed_lai,
    smoothing_LAI savgol_identity two_years = Ok smoothed_lai
    /\ length smoothed_lai = length (rows two_years) * ncols two_years
    /\ length (flatten (anomaly_of two_years)) = length (rows two_years) * ncols two_years
    /\ (forall c, c < ncols two_years ->
          nth c (column_means two_years) NaN
          = nanmean (map (fun r => nth c r NaN) (rows two_years)))
    /\ (forall y c, y < length (rows two_years) -> c < ncols two_years ->
          nth (y * ncols two_years + c) (flatten (anomaly_of two_years)) NaN
          = fsub (cell (rows two_years) y c) (nth c (column_means two_years) NaN))
    /\ (forall y c, y < length (rows two_years) -> c < ncols two_years ->
          nth (y * ncols two_years + c) smoothed_lai NaN
          = fadd (mean (window_through (flatten (anomaly_of two_years))
                          (Nat.max 0 (y * ncols two_years + c - 6))
                          (Nat.min (length (rows two_years) * ncols two_years - 1)
                                   (y * ncols two_years + c + 6))))
                 (nth c (savgol_identity (column_means two_years) 13%Z 3%Z) NaN)).
Proof.
  apply (C6_smoothing_LAI_decomposition savgol_identity two_years).
  - intros r [<-|[<-|[]]]; reflexivity.
  - reflexivity.
Defined.








(** ** Stage 1: the pixel selection *)













(** The five-step example end to end: the masked third step comes out of the
    aggregator as NaN and out of the interpolator as 1/3, the value of the
    cubic through its four neighbours. *)
Example masked_step_is_filled_from_neighbours :
  exists out,
    get_spatial_weighted_LAI lai_five sd_five qc_five = Ok out
    /\ map isnan (weighted_lai out) = [false; false; true; false; false]
    /\ interpolate_NA_LAI interp1d_lagrange (weighted_lai out)
       = Ok [Fin (qc 1 3); Fin (qc 1 3); Fin (qc 1 3); Fin (qc 1 3); Fin (qc 0 1)].
Proof.
  eexists. split; [reflexivity|]. split; canon_eq.
Qed.

(** * Further properties of the code *)

(** ** Order facts on exact values *)

Lemma Qc_add_nonneg (a b : Qc) : (0 <= a -> 0 <= b -> 0 <= a + b)%Qc.
Proof.
  intros Ha Hb. rewrite <- (Qcplus_0_l 0). apply Qcplus_le_compat; assumption.
Qed.

Lemma Qc_mul_nonneg (a b : Qc) : (0 <= a -> 0 <= b -> 0 <= a * b)%Qc.
Proof.
  intros Ha Hb. rewrite <- (Qcmult_0_l b). apply Qcmult_le_compat_r; assumption.
Qed.

Lemma Qc_mul_pos (a b : Qc) : (0 < a -> 0 < b -> 0 < a * b)%Qc.
Proof.
  intros Ha Hb. rewrite <- (Qcmult_0_l b). apply Qcmult_lt_compat_r; assumption.
Qed.

Lemma Qc_inv_pos (a : Qc) : (0 < a -> 0 < / a)%Qc.
Proof.
  unfold Qclt, Qcinv, Q2Qc. simpl. intros Ha. rewrite Qred_correct.
  apply Qinv_lt_0_compat. exact Ha.
Qed.

Lemma Qc_inv_nonneg (a : Qc) : (0 <= a -> 0 <= / a)%Qc.
Proof.
  unfold Qcle, Qcinv, Q2Qc. simpl. intros Ha. rewrite Qred_correct.
  apply Qinv_le_0_compat. exact Ha.
Qed.

Lemma Qc_add_pos_nonneg (a b : Qc) : (0 < a -> 0 <= b -> 0 < a + b)%Qc.
Proof.
  intros Ha Hb. apply (Qclt_le_trans _ (a + 0)%Qc).
  - rewrite Qcplus_0_r. assumption.
  - apply Qcplus_le_compat; [apply Qcle_refl | assumption].
Qed.

Lemma Qcltb_le_false (a b : Qc) : (b <= a)%Qc -> Qcltb a b = false.
Proof.
  intros H. destruct (Qcltb a b) eqn:E; [|reflexivity].
  apply Qcltb_true_lt in E. exfalso. apply (Qcle_not_lt _ _ H E).
Qed.

Lemma Qceqb_eq (a b : Qc) : Qceqb a b = true <-> a = b.
Proof.
  unfold Qceqb. rewrite Qceq_alt.
  destruct (a ?= b)%Qc; split; intros H; try reflexivity; discriminate.
Qed.

Lemma Qceqb_pos_false (a : Qc) : (0 < a)%Qc -> Qceqb a 0 = false.
Proof.
  intros H. destruct (Qceqb a 0) eqn:E; [|reflexivity].
  apply Qceqb_eq in E. subst a. exfalso. apply (Qcle_not_lt 0 0)%Qc; [apply Qcle_refl | exact H].
Qed.

(** ** Lists and indices *)

Lemma existsb_eqb_In (j : nat) (l : list nat) : existsb (Nat.eqb j) l = true <-> In j l.
Proof.
  rewrite existsb_exists. split.
  - intros (x & Hx & E). apply Nat.eqb_eq in E. subst; assumption.
  - intros H. exists j. split; [assumption | apply Nat.eqb_refl].
Qed.

Lemma existsb_eqb_not_In (j : nat) (l : list nat) :
  existsb (Nat.eqb j) l = false <-> ~ In j l.
Proof.
  rewrite <- existsb_eqb_In. destruct (existsb (Nat.eqb j) l); split; congruence.
Qed.

Lemma set_nth_length (i : nat) (v : float) (a : list float) :
  length (set_nth i v a) = length a.
Proof.
  revert i; induction a as [|x a IH]; intros [|i]; simpl; auto.
Qed.

Lemma set_nth_same (i : nat) (v : float) (a : list float) :
  i < length a -> nth i (set_nth i v a) NaN = v.
Proof.
  revert i; induction a as [|x a IH]; intros [|i]; simpl; try lia; auto.
  intros H. apply IH. lia.
Qed.

Lemma set_nth_other (i j : nat) (v : float) (a : list float) :
  j <> i -> nth j (set_nth i v a) NaN = nth j a NaN.
Proof.
  revert i j; induction a as [|x a IH]; intros [|i] [|j]; simpl; try congruence; auto.
Qed.

Lemma last_is_nth (a : list float) : last a NaN = nth (length a - 1) a NaN.
Proof.
  induction a as [|x a IH]; [reflexivity|].
  destruct a as [|y a]; [reflexivity|].
  change (last (x :: y :: a) NaN) with (last (y :: a) NaN). rewrite IH.
  simpl. rewrite Nat.sub_0_r. reflexivity.
Qed.

(** ** replace_negative_with_mean_of_nearest *)

Lemma neg_indices_from_In (k j : nat) (arr : list float) :
  In j (neg_indices_from k arr)
  <-> k <= j /\ j - k < length arr /\ flt (nth (j - k) arr NaN) (Fin 0%Qc) = true.
Proof.
  revert k; induction arr as [|v r IH]; intros k; simpl.
  - split; [tauto | intros (_ & H & _); lia].
  - destruct (flt v (Fin 0%Qc)) eqn:E; simpl; rewrite IH; split.
    + intros [<-|(H1 & H2 & H3)].
      * rewrite Nat.sub_diag. repeat split; auto; lia.
      * replace (j - k) with (S (j - S k)) by lia. repeat split; auto; lia.
    + intros (H1 & H2 & H3). destruct (Nat.eq_dec k j) as [->|Hne]; [left; reflexivity|].
      right. replace (j - k) with (S (j - S k)) in H2, H3 by lia.
      repeat split; auto; lia.
    + intros (H1 & H2 & H3).
      replace (j - k) with (S (j - S k)) by lia. repeat split; auto; lia.
    + intros (H1 & H2 & H3). destruct (Nat.eq_dec k j) as [->|Hne].
      * rewrite Nat.sub_diag in H3. congruence.
      * replace (j - k) with (S (j - S k)) in H2, H3 by lia.
        repeat split; auto; lia.
Qed.

Lemma neg_indices_In (j : nat) (arr : list float) :
  In j (neg_indices arr) <-> j < length arr /\ flt (nth j arr NaN) (Fin 0%Qc) = true.
Proof.
  unfold neg_indices. rewrite neg_indices_from_In, Nat.sub_0_r.
  split; [intros (_ & H); exact H | intros H; split; [lia | exact H]].
Qed.

Lemma neg_indices_nil (arr : list float) :
  (forall v, In v arr -> flt v (Fin 0%Qc) = false) -> neg_indices arr = [].
Proof.
  intros H. destruct (neg_indices arr) as [|j l] eqn:E; [reflexivity|].
  assert (Hj : In j (neg_indices arr)) by (rewrite E; left; reflexivity).
  apply neg_indices_In in Hj. destruct Hj as [Hlt Hneg].
  rewrite (H (nth j arr NaN)) in Hneg by (apply nth_In; assumption). discriminate.
Qed.

Lemma left_index_cases (neg : list nat) (i : nat) :
  left_index neg i = (-1)%Z
  \/ exists j, j < i /\ left_index neg i = Z.of_nat j /\ ~ In j neg.
Proof.
  induction i as [|i IH]; simpl; [left; reflexivity|].
  destruct (existsb (Nat.eqb i) neg) eqn:E.
  - destruct IH as [IH|(j & Hj & Hl & Hn)]; [left; assumption|].
    right. exists j. repeat split; auto.
  - right. exists i. repeat split; auto. apply existsb_eqb_not_In; assumption.
Qed.

Lemma right_index_stops (neg : list nat) (fuel k m : nat) :
  k <= m -> ~ In m neg -> m - k <= fuel ->
  k <= right_index neg fuel k <= m /\ ~ In (right_index neg fuel k) neg.
Proof.
  revert k; induction fuel as [|f IH]; intros k Hk Hm Hf; simpl.
  - assert (k = m) by lia. subst. split; [lia | assumption].
  - destruct (existsb (Nat.eqb k) neg) eqn:E.
    + apply existsb_eqb_In in E.
      assert (k <> m) by (intros ->; contradiction).
      destruct (IH (S k)) as [H1 H2]; try lia; auto. split; [lia | assumption].
    + split; [lia | apply existsb_eqb_not_In; assumption].
Qed.

Lemma mean_pair (l r : float) :
  mean [l; r] = fdiv (fadd l (fadd r (Fin 0%Qc))) (of_nat 2).
Proof. reflexivity. Qed.

Lemma mean_pair_not_negative (l r : float) :
  flt l (Fin 0%Qc) = false -> flt r (Fin 0%Qc) = false ->
  flt (mean [l; r]) (Fin 0%Qc) = false.
Proof.
  rewrite mean_pair. destruct l as [|a], r as [|b]; simpl; auto.
  intros Ha Hb. apply Qcltb_false_le in Ha, Hb.
  change (Qceqb (Q2Qc (inject_Z (Z.of_nat 2))) 0%Qc) with false. cbv iota.
  unfold flt. apply Qcltb_le_false.
  unfold Qcdiv. apply Qc_mul_nonneg.
  - apply Qc_add_nonneg; [assumption|]. apply Qc_add_nonneg; [assumption | apply Qcle_refl].
  - apply Qc_inv_nonneg. unfold Qcle. simpl. discriminate.
Qed.

Lemma py_index_raises_IndexError (a : list float) (i : Z) (e : exn) :
  py_index a i = Err e -> e = IndexError.
Proof.
  unfold py_index. intros E.
  repeat match type of E with
         | (if ?c then _ else _) = _ => destruct c; try discriminate E
         end.
  injection E as <-. reflexivity.
Qed.

Lemma replace_loop_step (neg rest : list nat) (i : nat) (b : list float) :
  replace_loop neg (i :: rest) b
  = (l <- py_index b (left_index neg i) ;;
     r <- py_index b (Z.of_nat (right_index neg (length b - S i) (S i))) ;;
     replace_loop neg rest (set_nth i (mean [l; r]) b)).
Proof. reflexivity. Qed.

Lemma replace_loop_raises_IndexError (neg todo : list nat) (b : list float) (e : exn) :
  replace_loop neg todo b = Err e -> e = IndexError.
Proof.
  revert b; induction todo as [|i rest IH]; intros b; [discriminate|].
  rewrite replace_loop_step.
  destruct (py_index b (left_index neg i)) as [l|e1] eqn:El; unfold bind at 1.
  - destruct (py_index b (Z.of_nat (right_index neg (length b - S i) (S i))))
      as [r|e2] eqn:Er; unfold bind at 1.
    + apply IH.
    + intros H. injection H as <-. eapply py_index_raises_IndexError; eassumption.
  - intros H. injection H as <-. eapply py_index_raises_IndexError; eassumption.
Qed.

Lemma replace_loop_last_in_todo (neg todo : list nat) (b : list float) (r : list float) :
  In (length b - 1) todo -> b <> [] -> replace_loop neg todo b <> Ok r.
Proof.
  revert b; induction todo as [|i rest IH]; intros b Hin Hne; [contradiction|].
  assert (Hpos : 0 < length b) by (destruct b; [congruence | simpl; lia]).
  rewrite replace_loop_step.
  destruct (py_index b (left_index neg i)) as [l|e1]; unfold bind at 1; [|discriminate].
  destruct (Nat.eq_dec i (length b - 1)) as [->|Hi].
  - replace (length b - S (length b - 1)) with 0 by lia.
    change (right_index neg 0 (S (length b - 1))) with (S (length b - 1)).
    replace (S (length b - 1)) with (length b) by lia.
    rewrite py_index_past_end. unfold bind at 1. discriminate.
  - destruct (py_index b (Z.of_nat (right_index neg (length b - S i) (S i))))
      as [x|e2]; unfold bind at 1; [|discriminate].
    apply IH.
    + rewrite set_nth_length. destruct Hin as [E|H]; [congruence | assumption].
    + intros E. apply (f_equal (@length float)) in E.
      rewrite set_nth_length in E. simpl in E. lia.
Qed.

Lemma nearest_mean_reads (arr b : list float) (i : nat) :
  arr <> [] ->
  ~ In (length arr - 1) (neg_indices arr) ->
  In i (neg_indices arr) ->
  length b = length arr ->
  (forall j, ~ In j (neg_indices arr) -> nth j b NaN = nth j arr NaN) ->
  py_index b (left_index (neg_indices arr) i)
  = Ok (match left_index (neg_indices arr) i with
        | Z.neg _ => nth (length arr - 1) arr NaN
        | l => nth (Z.to_nat l) arr NaN
        end)
  /\ py_index b (Z.of_nat (right_index (neg_indices arr) (length b - S i) (S i)))
     = Ok (nth (right_index (neg_indices arr) (length arr - S i) (S i)) arr NaN)
  /\ ~ In (right_index (neg_indices arr) (length arr - S i) (S i)) (neg_indices arr)
  /\ right_index (neg_indices arr) (length arr - S i) (S i) < length arr.
Proof.
  intros Hne Hlast Hi Hlen Hinv.
  assert (Hin : i < length arr) by (apply neg_indices_In in Hi; tauto).
  assert (Hil : i <> length arr - 1) by (intros ->; contradiction).
  split.
  - destruct (left_index_cases (neg_indices arr) i) as [E|(j & Hj & E & Hn)]; rewrite E.
    + rewrite py_index_minus_one by (intros ->; simpl in Hlen; lia).
      rewrite Hlen, (Hinv _ Hlast). reflexivity.
    + rewrite py_index_in_range by lia. rewrite (Hinv _ Hn).
      f_equal. destruct (Z.of_nat j) eqn:Ez; try lia; rewrite <- Ez, Nat2Z.id; reflexivity.
  - rewrite Hlen.
    destruct (right_index_stops (neg_indices arr) (length arr - S i) (S i)
                (length arr - 1)) as [Hr Hn]; try lia; auto.
    split; [|split; [assumption | lia]].
    rewrite py_index_in_range by lia. rewrite (Hinv _ Hn). reflexivity.
Qed.

Lemma replace_loop_ok (arr : list float) (todo : list nat) (b : list float) :
  arr <> [] ->
  ~ In (length arr - 1) (neg_indices arr) ->
  (forall i, In i todo -> In i (neg_indices arr)) ->
  length b = length arr ->
  (forall j, ~ In j (neg_indices arr) -> nth j b NaN = nth j arr NaN) ->
  exists r,
    replace_loop (neg_indices arr) todo b = Ok r
    /\ length r = length arr
    /\ forall j, nth j r NaN
                 = if existsb (Nat.eqb j) todo then nearest_mean arr j else nth j b NaN.
Proof.
  intros Hne Hlast. revert b; induction todo as [|i rest IH]; intros b Htodo Hlen Hinv.
  - exists b. repeat split; auto.
  - assert (Hi : In i (neg_indices arr)) by (apply Htodo; left; reflexivity).
    destruct (nearest_mean_reads arr b i Hne Hlast Hi Hlen Hinv) as (Hl & Hr & _ & _).
    rewrite replace_loop_step, Hl. unfold bind at 1. rewrite Hr. unfold bind at 1.
    fold (nearest_mean arr i).
    destruct (IH (set_nth i (nearest_mean arr i) b)) as (r & Hok & Hrl & Hnth).
    + intros k Hk. apply Htodo. right; assumption.
    + rewrite set_nth_length. assumption.
    + intros j Hj. rewrite set_nth_other by (intros ->; contradiction). apply Hinv; assumption.
    + exists r. split; [assumption|]. split; [assumption|].
      intros j. rewrite Hnth. simpl existsb.
      destruct (Nat.eqb_spec j i) as [->|Hji]; simpl.
      * destruct (existsb (Nat.eqb i) rest); [reflexivity|].
        apply set_nth_same. apply neg_indices_In in Hi. lia.
      * rewrite set_nth_other by assumption. reflexivity.
Qed.

(** X1.  When the last cell of the array is negative the function raises
    IndexError: the search for a right neighbour runs past the end. *)
Theorem replace_negative_last_negative_raises (arr : list float) :
  flt (last arr NaN) (Fin 0%Qc) = true ->
  replace_negative_with_mean_of_nearest arr = Err IndexError.
Proof.
  intros Hlast.
  assert (Hne : arr <> []) by (intros ->; discriminate).
  assert (Hin : In (length arr - 1) (neg_indices arr)).
  { apply neg_indices_In. rewrite <- last_is_nth. split; [|assumption].
    destruct arr; [congruence | simpl; lia]. }
  unfold replace_negative_with_mean_of_nearest. cbv zeta.
  destruct (replace_loop (neg_indices arr) (neg_indices arr) arr) as [r|e] eqn:E.
  - exfalso. exact (replace_loop_last_in_todo _ _ _ r Hin Hne E).
  - f_equal. eapply replace_loop_raises_IndexError; eassumption.
Qed.

Lemma replace_negative_last_negative_raises_witness :
  replace_negative_with_mean_of_nearest [fz 1; fz (-2); fz 3; fz (-4)] = Err IndexError.
Proof.
  apply (replace_negative_last_negative_raises [fz 1; fz (-2); fz 3; fz (-4)]).
  reflexivity.
Defined.

Lemma replace_negative_spec (arr : list float) :
  flt (last arr NaN) (Fin 0%Qc) = false ->
  exists r,
    replace_negative_with_mean_of_nearest arr = Ok r
    /\ length r = length arr
    /\ (forall j, j < length arr ->
          nth j r NaN = if flt (nth j arr NaN) (Fin 0%Qc)
                        then nearest_mean arr j else nth j arr NaN)
    /\ (forall v, In v r -> flt v (Fin 0%Qc) = false).
Proof.
  intros Hlast. destruct arr as [|x arr'] eqn:Earr.
  { exists []. repeat split; auto; simpl; intros; try lia; contradiction. }
  rewrite <- Earr in *. assert (Hne : arr <> []) by (rewrite Earr; discriminate).
  clear Earr x arr'.
  assert (Hl : ~ In (length arr - 1) (neg_indices arr)).
  { intros H. apply neg_indices_In in H. rewrite <- last_is_nth in H.
    destruct H as [_ H]. congruence. }
  destruct (replace_loop_ok arr (neg_indices arr) arr Hne Hl) as (r & Hok & Hlen & Hnth); auto.
  assert (Hcell : forall j, j < length arr ->
            nth j r NaN = if flt (nth j arr NaN) (Fin 0%Qc)
                          then nearest_mean arr j else nth j arr NaN).
  { intros j Hj. rewrite Hnth.
    destruct (flt (nth j arr NaN) (Fin 0%Qc)) eqn:E.
    - replace (existsb (Nat.eqb j) (neg_indices arr)) with true; [reflexivity|].
      symmetry. apply existsb_eqb_In, neg_indices_In. auto.
    - replace (existsb (Nat.eqb j) (neg_indices arr)) with false; [reflexivity|].
      symmetry. apply existsb_eqb_not_In. intros H. apply neg_indices_In in H.
      destruct H as [_ H]. congruence. }
  exists r. split; [exact Hok|]. split; [exact Hlen|]. split; [exact Hcell|].
  intros v Hv. destruct (In_nth _ _ NaN Hv) as (j & Hj & <-).
  rewrite Hlen in Hj. rewrite (Hcell j Hj).
  destruct (flt (nth j arr NaN) (Fin 0%Qc)) eqn:E; [|assumption].
  assert (Hi : In j (neg_indices arr)) by (apply neg_indices_In; auto).
  destruct (nearest_mean_reads arr arr j Hne Hl Hi eq_refl (fun _ _ => eq_refl))
    as (_ & _ & Hrn & Hrl).
  unfold nearest_mean. cbv zeta. apply mean_pair_not_negative.
  - destruct (left_index_cases (neg_indices arr) j) as [El|(k & Hk & El & Hn)]; rewrite El.
    + rewrite <- last_is_nth. assumption.
    + replace (match Z.of_nat k with Z.neg _ => nth (length arr - 1) arr NaN
                                | l => nth (Z.to_nat l) arr NaN end)
        with (nth k arr NaN)
        by (destruct (Z.of_nat k) eqn:Ez; try lia; rewrite <- Ez, Nat2Z.id; reflexivity).
      destruct (flt (nth k arr NaN) (Fin 0%Qc)) eqn:Ek; [|reflexivity].
      exfalso. apply Hn. apply neg_indices_In. split; [lia | assumption].
  - destruct (flt (nth (right_index (neg_indices arr) (length arr - S j) (S j)) arr NaN)
                (Fin 0%Qc)) eqn:Er; [|reflexivity].
    exfalso. apply Hrn. apply neg_indices_In. split; assumption.
Qed.



Lemma replace_negative_returns_only_if_last_ok (arr r : list float) :
  replace_negative_with_mean_of_nearest arr = Ok r ->
  flt (last arr NaN) (Fin 0%Qc) = false.
Proof.
  intros Hok. destruct (flt (last arr NaN) (Fin 0%Qc)) eqn:E; [|reflexivity].
  exfalso.
  assert (Hne : arr <> []) by (intros ->; discriminate).
  assert (Hin : In (length arr - 1) (neg_indices arr)).
  { apply neg_indices_In. rewrite <- last_is_nth. split; [|assumption].
    destruct arr; [congruence | simpl; lia]. }
  exact (replace_loop_last_in_todo _ _ _ r Hin Hne Hok).
Qed.

(** X3.  The function is idempotent: on an array it has returned it returns
    that array again. *)
Theorem replace_negative_idempotent (arr r : list float) :
  replace_negative_with_mean_of_nearest arr = Ok r ->
  replace_negative_with_mean_of_nearest r = Ok r.
Proof.
  intros Hok.
  pose proof (replace_negative_returns_only_if_last_ok arr r Hok) as Hlast.
  destruct (replace_negative_spec arr Hlast) as (r' & Hok' & _ & _ & Hpos).
  assert (r' = r) by congruence. subst r'.
  unfold replace_negative_with_mean_of_nearest. cbv zeta.
  rewrite (neg_indices_nil r Hpos). reflexivity.
Qed.

Lemma replace_negative_idempotent_witness :
  replace_negative_with_mean_of_nearest [fz 3; fz 2; fz 3; fz 3; fz 4]
  = Ok [fz 3; fz 2; fz 3; fz 3; fz 4].
Proof.
  apply (replace_negative_idempotent [fz (-1); fz 2; fz (-3); fz (-5); fz 4]).
  canon_eq.
Defined.

(** X4.  A negative first cell has no left neighbour: when the call returns,
    that cell holds the mean of the array's last cell (read through index -1)
    and of the nearest non-negative cell to its right. *)
Theorem replace_negative_first_cell_reads_last (arr r : list float) :
  flt (nth 0 arr NaN) (Fin 0%Qc) = true ->
  replace_negative_with_mean_of_nearest arr = Ok r ->
  nth 0 r NaN
  = mean [last arr NaN;
          nth (right_index (neg_indices arr) (length arr - 1) 1) arr NaN].
Proof.
  intros H0 Hok.
  pose proof (replace_negative_returns_only_if_last_ok arr r Hok) as Hlast.
  destruct (replace_negative_spec arr Hlast) as (r' & Hok' & _ & Hcell & _).
  assert (r' = r) by congruence. subst r'.
  assert (Hpos : 0 < length arr) by (destruct arr; [discriminate | simpl; lia]).
  rewrite (Hcell 0 Hpos), H0. unfold nearest_mean. cbv zeta.
  change (left_index (neg_indices arr) 0) with (-1)%Z. cbv iota.
  rewrite <- last_is_nth. reflexivity.
Qed.

Lemma replace_negative_first_cell_reads_last_witness :
  nth 0 [fz 3; fz 2; fz 3; fz 3; fz 4] NaN
  = mean [last [fz (-1); fz 2; fz (-3); fz (-5); fz 4] NaN;
          nth (right_index (neg_indices [fz (-1); fz 2; fz (-3); fz (-5); fz 4])
                 (length [fz (-1); fz 2; fz (-3); fz (-5); fz 4] - 1) 1)
              [fz (-1); fz 2; fz (-3); fz (-5); fz 4] NaN].
Proof.
  apply (replace_negative_first_cell_reads_last
           [fz (-1); fz 2; fz (-3); fz (-5); fz 4] [fz 3; fz 2; fz 3; fz 3; fz 4]).
  - reflexivity.
  - canon_eq.
Defined.

(** ** get_spatial_weighted_LAI: what a row depends on *)

Lemma keep_mask_needs_accepted_qc (l s q : float) :
  isin qc_flags q = false -> keep_mask l s q = false.
Proof. unfold keep_mask. intros ->. reflexivity. Qed.

Lemma keep_sd_needs_accepted_qc (s q : float) :
  isin qc_flags q = false -> keep_sd s q = false.
Proof. unfold keep_sd. intros ->. reflexivity. Qed.

Lemma mask_rows_agree (L S L' S' Q : list float) :
  length L = length Q -> length S = length Q ->
  length L' = length Q -> length S' = length Q ->
  (forall i, isin qc_flags (nth i Q NaN) = true ->
     nth i L NaN = nth i L' NaN /\ nth i S NaN = nth i S' NaN) ->
  mask_lai_row L S Q = mask_lai_row L' S' Q /\ mask_sd_row S Q = mask_sd_row S' Q.
Proof.
  intros HL HS HL' HS' Hag. split.
  - apply (nth_ext _ _ NaN NaN).
    + rewrite !mask_lai_row_length; auto.
    + intros i Hi. rewrite mask_lai_row_length in Hi by assumption.
      rewrite !mask_lai_row_nth by assumption.
      destruct (isin qc_flags (nth i Q NaN)) eqn:E.
      * destruct (Hag i E) as [-> ->]. reflexivity.
      * rewrite !keep_mask_needs_accepted_qc by assumption. reflexivity.
  - apply (nth_ext _ _ NaN NaN).
    + rewrite !mask_sd_row_length; auto.
    + intros i Hi. rewrite mask_sd_row_length in Hi by assumption.
      rewrite !mask_sd_row_nth by assumption.
      destruct (isin qc_flags (nth i Q NaN)) eqn:E.
      * destruct (Hag i E) as [_ ->]. reflexivity.
      * rewrite !keep_sd_needs_accepted_qc by assumption. reflexivity.
Qed.

(** X5.  Cells whose QC flag is not accepted have no influence at all: two
    calls with the same QC array, on LAI and standard-deviation arrays that
    agree wherever the flag is accepted, return the same series and leave the
    same arrays behind. *)
Theorem aggregator_ignores_rejected_cells (lai sd lai' sd' qc : grid) :
  same_shape qc lai = true -> same_shape qc sd = true ->
  same_shape qc lai' = true -> same_shape qc sd' = true ->
  (forall t i, isin qc_flags (cell qc t i) = true ->
     cell lai t i = cell lai' t i /\ cell sd t i = cell sd' t i) ->
  get_spatial_weighted_LAI lai sd qc = get_spatial_weighted_LAI lai' sd' qc.
Proof.
  intros Hl Hs Hl' Hs' Hag.
  destruct (same_shape_rows _ _ Hl) as [_ Hlr].
  destruct (same_shape_rows _ _ Hs) as [_ Hsr].
  destruct (same_shape_rows _ _ Hl') as [_ Hlr'].
  destruct (same_shape_rows _ _ Hs') as [_ Hsr'].
  destruct (get_spatial_weighted_LAI_rows lai sd qc Hl Hs)
    as (out & -> & Hq & HnL & HnS & HnW & Hrows).
  destruct (get_spatial_weighted_LAI_rows lai' sd' qc Hl' Hs')
    as (out' & -> & Hq' & HnL' & HnS' & HnW' & Hrows').
  assert (Hrow : forall t,
            mask_lai_row (nth t lai []) (nth t sd []) (nth t qc [])
            = mask_lai_row (nth t lai' []) (nth t sd' []) (nth t qc [])
            /\ mask_sd_row (nth t sd []) (nth t qc [])
               = mask_sd_row (nth t sd' []) (nth t qc [])).
  { intros t. apply mask_rows_agree; auto. intros i Hi. apply (Hag t i Hi). }
  f_equal. destruct out as [a b c d], out' as [a' b' c' d']. simpl in *.
  f_equal.
  - apply (nth_ext _ _ [] []); [lia|]. intros t _.
    destruct (Hrows t) as (-> & _ & _). destruct (Hrows' t) as (-> & _ & _).
    apply Hrow.
  - apply (nth_ext _ _ [] []); [lia|]. intros t _.
    destruct (Hrows t) as (_ & -> & _). destruct (Hrows' t) as (_ & -> & _).
    apply Hrow.
  - congruence.
  - apply (nth_ext _ _ NaN NaN); [lia|]. intros t Ht.
    destruct (Hrows t) as (_ & _ & Hw). destruct (Hrows' t) as (_ & _ & Hw').
    rewrite Hw, Hw' by lia. destruct (Hrow t) as [-> ->]. reflexivity.
Qed.

Lemma aggregator_ignores_rejected_cells_witness :
  get_spatial_weighted_LAI lai_five sd_five qc_five
  = get_spatial_weighted_LAI
      [nine (fz 3); nine (fz 3); nine (fz 7); nine (fz 3); nine (fz 3)]
      [nine (Fin (qc 1 2)); nine (Fin (qc 1 2)); nine (fz 1); nine (Fin (qc 1 2));
       nine (Fin (qc 1 2))]
      qc_five.
Proof.
  apply (aggregator_ignores_rejected_cells lai_five sd_five
           [nine (fz 3); nine (fz 3); nine (fz 7); nine (fz 3); nine (fz 3)]
           [nine (Fin (qc 1 2)); nine (Fin (qc 1 2)); nine (fz 1); nine (Fin (qc 1 2));
            nine (Fin (qc 1 2))]
           qc_five); try reflexivity.
  intros t i.
  do 5 (destruct t as [|t];
        [do 9 (destruct i as [|i];
               [vm_compute; intros H; first [discriminate H | split; reflexivity]|]);
         destruct i; vm_compute; intros H; discriminate H|]).
  destruct t; destruct i; vm_compute; intros H; discriminate H.
Defined.

(** ** get_spatial_weighted_LAI: the weights of a row *)

Lemma nansum_is_value (l : list float) : nansum l = Fin (nansum_value l).
Proof. reflexivity. Qed.

Lemma nansum_value_nonneg (l : list float) :
  (forall x, In x l -> nan_or_positive x) -> (0 <= nansum_value l)%Qc.
Proof.
  induction l as [|x l IH]; intros H; simpl; [apply Qcle_refl|].
  assert (IH' : (0 <= nansum_value l)%Qc) by (apply IH; intros; apply H; right; assumption).
  destruct x as [|a]; [exact IH'|].
  apply Qc_add_nonneg; [|exact IH'].
  apply Qclt_le_weak. exact (H (Fin a) (or_introl eq_refl)).
Qed.

Lemma nansum_value_pos (l : list float) :
  (forall x, In x l -> nan_or_positive x) ->
  (exists x, In x l /\ isnan x = false) ->
  (0 < nansum_value l)%Qc.
Proof.
  induction l as [|x l IH]; intros H (y & Hy & Hn); [contradiction|].
  assert (Hl : forall z, In z l -> nan_or_positive z) by (intros; apply H; right; assumption).
  simpl. destruct x as [|a].
  - apply IH; [exact Hl|]. destruct Hy as [<-|Hy]; [discriminate|]. exists y; auto.
  - apply Qc_add_pos_nonneg.
    + exact (H (Fin a) (or_introl eq_refl)).
    + apply nansum_value_nonneg; exact Hl.
Qed.

Lemma inverse_variance_cell (a : Qc) :
  Qcltb a (qc 1 10) = false ->
  exists p, fdiv (Fin 1%Qc) (fmul (Fin a) (Fin a)) = Fin p /\ (0 < p)%Qc.
Proof.
  intros Ha. apply Qcltb_false_le in Ha.
  assert (Hpos : (0 < a)%Qc).
  { apply (Qclt_le_trans _ (qc 1 10)); [|exact Ha]. reflexivity. }
  assert (Hsq : (0 < a * a)%Qc) by (apply Qc_mul_pos; assumption).
  exists (1 / (a * a))%Qc. split.
  - simpl. rewrite (Qceqb_pos_false _ Hsq). reflexivity.
  - unfold Qcdiv. rewrite Qcmult_1_l. apply Qc_inv_pos. exact Hsq.
Qed.

Lemma keep_sd_true (s q : float) :
  keep_sd s q = true -> exists a, s = Fin a /\ Qcltb a (qc 1 10) = false.
Proof.
  unfold keep_sd. rewrite andb_true_iff. intros [_ H].
  destruct s as [|a]; [discriminate|]. exists a. split; [reflexivity|].
  simpl in H. destruct (Qcltb a (qc 1 10)); [discriminate | reflexivity].
Qed.

Lemma inverse_variance_row_positive (S Q : list float) (x : float) :
  In x (map (fun s => fdiv (Fin 1%Qc) (fmul s s)) (mask_sd_row S Q)) ->
  nan_or_positive x.
Proof.
  intros Hx. apply in_map_iff in Hx. destruct Hx as (s & <- & Hs).
  unfold mask_sd_row in Hs. apply in_map2_l in Hs. destruct Hs as (s0 & q & _ & _ & ->).
  destruct (keep_sd s0 q) eqn:E; [|exact I].
  destruct (keep_sd_true _ _ E) as (a & -> & Ha).
  destruct (inverse_variance_cell a Ha) as (p & -> & Hp). exact Hp.
Qed.

Lemma of_nat_positive (n : nat) :
  0 < n -> exists a, of_nat n = Fin a /\ (0 < a)%Qc.
Proof.
  intros Hn. unfold of_nat, of_Z. eexists. split; [reflexivity|].
  assert (H : (0 < inject_Z (Z.of_nat n))%Q) by (unfold Qlt; simpl; lia).
  unfold Qclt. cbn [this Q2Qc].
  rewrite (Qred_correct (inject_Z (Z.of_nat n))). exact H.
Qed.

Lemma nanmean_is_a_number (l : list float) (x : float) :
  In x l -> isnan x = false -> exists v, nanmean l = Fin v.
Proof.
  intros Hx Hn. unfold nanmean.
  assert (Hc : 0 < count_valid l).
  { unfold count_valid.
    assert (Hin : In x (filter (fun y => negb (isnan y)) l))
      by (apply filter_In; split; [assumption | rewrite Hn; reflexivity]).
    destruct (filter (fun y => negb (isnan y)) l); [contradiction | simpl; lia]. }
  destruct (count_valid l) as [|k] eqn:E; [lia|].
  destruct (of_nat_positive (S k) Hc) as (a & -> & Ha).
  rewrite nansum_is_value. simpl. rewrite (Qceqb_pos_false _ Ha).
  eexists; reflexivity.
Qed.

Lemma keep_mask_true (l s q : float) :
  keep_mask l s q = true -> keep_sd s q = true /\ exists v, l = Fin v.
Proof.
  unfold keep_mask, keep_sd. rewrite !andb_true_iff. intros [[H1 H2] H3].
  split; [auto|]. destruct l as [|v]; [discriminate | exists v; reflexivity].
Qed.

(** X7.  The converse of the all-masked case: at a time step where at least
    one cell passes the keep-mask, the returned series holds a number, not
    the missing marker.  The two bounds keep the row in the range where the
    squares, quotients and products of the function stay finite and non-zero
    in float64: the passing cell has a standard deviation of at most 1000,
    and no LAI of the row that passes the keep-mask is below -1000. *)
Theorem kept_cell_gives_a_number (lai sd qc : grid) (t i : nat) :
  same_shape qc lai = true ->
  same_shape qc sd = true ->
  t < length qc -> i < length (nth t qc []) ->
  keep_mask (cell lai t i) (cell sd t i) (cell qc t i) = true ->
  fle (cell sd t i) (of_Z 1000) = true ->
  (forall j, j < length (nth t qc []) ->
     keep_mask (cell lai t j) (cell sd t j) (cell qc t j) = true ->
     fge (cell lai t j) (of_Z (-1000)) = true) ->
  exists out v,
    get_spatial_weighted_LAI lai sd qc = Ok out
    /\ nth_error (weighted_lai out) t = Some (Fin v).
Proof.
  intros Hl Hs Ht Hi Hk _ _.
  destruct (same_shape_rows _ _ Hl) as [_ Hlr].
  destruct (same_shape_rows _ _ Hs) as [_ Hsr].
  destruct (get_spatial_weighted_LAI_rows lai sd qc Hl Hs)
    as (out & Hout & _ & _ & _ & HnW & Hrows).
  destruct (Hrows t) as (_ & _ & Hw). specialize (Hw Ht).
  destruct (keep_mask_true _ _ _ Hk) as (Hksd & l & El).
  destruct (keep_sd_true _ _ Hksd) as (a & Ea & Ha).
  destruct (inverse_variance_cell a Ha) as (p & Ep & Hp).
  unfold cell in Hk, Hksd, El, Ea.
  set (L := nth t lai []) in *. set (S := nth t sd []) in *. set (Q := nth t qc []) in *.
  set (inv := map (fun s => fdiv (Fin 1%Qc) (fmul s s)) (mask_sd_row S Q)) in *.
  assert (HLen : length L = length Q) by (symmetry; apply Hlr).
  assert (HSen : length S = length Q) by (symmetry; apply Hsr).
  assert (Hinv_i : nth i inv NaN = Fin p).
  { subst inv. rewrite (nth_map_in _ _ i NaN) by (rewrite mask_sd_row_length; auto).
    rewrite mask_sd_row_nth by auto.
    rewrite Hksd, Ea. exact Ep. }
  assert (Hlen_inv : length inv = length Q)
    by (subst inv; rewrite length_map, mask_sd_row_length; auto).
  assert (HT : (0 < nansum_value inv)%Qc).
  { apply nansum_value_pos.
    - intros x Hx. eapply inverse_variance_row_positive; exact Hx.
    - exists (nth i inv NaN). split; [apply nth_In; lia | rewrite Hinv_i; reflexivity]. }
  assert (Hprod : exists v,
            nth i (map2 fmul (mask_lai_row L S Q) (row_weights inv)) NaN = Fin v).
  { rewrite (nth_map2 _ _ _ i NaN NaN).
    - rewrite mask_lai_row_nth by auto. rewrite Hk, El. unfold row_weights.
      rewrite (nth_map_in _ _ i NaN) by lia. rewrite Hinv_i, nansum_is_value.
      simpl. rewrite (Qceqb_pos_false _ HT). eexists; reflexivity.
    - rewrite mask_lai_row_length; auto.
    - unfold row_weights. rewrite length_map. lia. }
  destruct Hprod as (v0 & Hv0).
  destruct (nanmean_is_a_number
              (map2 fmul (mask_lai_row L S Q) (row_weights inv)) (Fin v0)) as (v & Hv).
  - rewrite <- Hv0. apply nth_In.
    rewrite map2_length, mask_lai_row_length by auto.
    unfold row_weights. rewrite length_map. lia.
  - reflexivity.
  - exists out, v. split; [exact Hout|].
    rewrite (nth_error_nth' _ NaN) by lia. rewrite Hw, Hv. reflexivity.
Qed.

Lemma kept_cell_gives_a_number_witness :
  exists out v,
    get_spatial_weighted_LAI lai_ceiling sd_half qc_good = Ok out
    /\ nth_error (weighted_lai out) 0 = Some (Fin v).
Proof.
  apply (kept_cell_gives_a_number lai_ceiling sd_half qc_good 0 1);
    try reflexivity; try (simpl; lia).
  intros j Hj. simpl in Hj.
  do 9 (destruct j as [|j]; [intros _; reflexivity|]). lia.
Defined.

(** ** interpolate_NA_LAI applied twice *)

Lemma interpolated_no_gap (f : Z -> Qc) (l : list float) :
  (forall v, In v l -> isnan v = false) -> interpolated f l = l.
Proof.
  intros H. apply (nth_ext _ _ NaN NaN); [apply interpolated_length|].
  intros i Hi. rewrite interpolated_length in Hi. rewrite interpolated_nth by assumption.
  pose proof (H _ (nth_In l NaN Hi)) as Hn.
  destruct (nth i l NaN); [discriminate | reflexivity].
Qed.

Lemma clamp0_fixes_nonnegative (l : list float) :
  (forall v, In v l -> exists q, v = Fin q /\ (0 <= q)%Qc) -> map clamp0 l = l.
Proof.
  intros H. rewrite <- (map_id l) at 2. apply map_ext_in. intros v Hv.
  destruct (H v Hv) as (q & -> & Hq). unfold clamp0, flt.
  rewrite (Qcltb_le_false _ _ Hq). reflexivity.
Qed.

(** X8.  The interpolator is idempotent: a series it has returned has no
    missing and no negative cell and ends in 0, so a second call, whenever
    interp1d accepts that series, returns it unchanged. *)
Theorem interpolate_NA_LAI_idempotent
  (interp1d : list Z -> list Qc -> outcome (Z -> Qc))
  (unfilled_lai filled_lai : list float) (f' : Z -> Qc) :
  interpolate_NA_LAI interp1d unfilled_lai = Ok filled_lai ->
  interp1d (map fst (known_points filled_lai)) (map snd (known_points filled_lai)) = Ok f' ->
  interpolate_NA_LAI interp1d filled_lai = Ok filled_lai.
Proof.
  intros H1 H2.
  assert (Hshape : exists body, filled_lai = body ++ [Fin 0%Qc]
            /\ forall v, In v body -> exists q, v = Fin q /\ (0 <= q)%Qc).
  { unfold interpolate_NA_LAI in H1.
    destruct (interp1d _ _) as [f|e]; [|discriminate]. unfold bind in H1.
    fold (interpolated f unfilled_lai) in H1. unfold set_last in H1.
    destruct (map clamp0 (interpolated f unfilled_lai)) as [|x l] eqn:E; [discriminate|].
    exists (removelast (x :: l)). split; [injection H1 as <-; reflexivity|].
    intros v Hv. apply in_removelast in Hv. rewrite <- E in Hv.
    apply in_map_iff in Hv. destruct Hv as (y & <- & Hy).
    apply clamp0_nonneg. eapply interpolated_finite; eassumption. }
  destruct Hshape as (body & -> & Hbody).
  assert (Hall : forall v, In v (body ++ [Fin 0%Qc]) -> exists q, v = Fin q /\ (0 <= q)%Qc).
  { intros v Hv. apply in_app_or in Hv. destruct Hv as [Hv|[<-|[]]]; [auto|].
    exists 0%Qc. split; [reflexivity | apply Qcle_refl]. }
  rewrite (interpolate_NA_LAI_result interp1d _ f') by (auto; destruct body; discriminate).
  rewrite interpolated_no_gap.
  - rewrite clamp0_fixes_nonnegative by exact Hall. rewrite removelast_last. reflexivity.
  - intros v Hv. destruct (Hall v Hv) as (q & -> & _). reflexivity.
Qed.

Lemma interpolate_NA_LAI_idempotent_witness :
  interpolate_NA_LAI interp1d_lagrange [fz 1; Fin (qc 5 4); fz 2; fz 4; fz 8; fz 0]
  = Ok [fz 1; Fin (qc 5 4); fz 2; fz 4; fz 8; fz 0].
Proof.
  apply (interpolate_NA_LAI_idempotent interp1d_lagrange
           series_gaps [fz 1; Fin (qc 5 4); fz 2; fz 4; fz 8; fz 0]
           (lagrange_sum [0; 1; 2; 3; 4; 5]%Z [0; 1; 2; 3; 4; 5]%Z
              [qc 1 1; qc 5 4; qc 2 1; qc 4 1; qc 8 1; qc 0 1])).
  - canon_eq.
  - reflexivity.
Defined.

(** ** check_data_availability_LAI: shapes and bounds *)

Lemma fill_temp_array_length (result : list bool) (filled_lai : list float) (k : nat)
  (temp_array : list float) :
  fill_temp_array result filled_lai k = Ok temp_array ->
  length temp_array = length result.
Proof.
  revert k temp_array; induction result as [|b r IH]; intros k t; simpl.
  - intros H; injection H as <-; reflexivity.
  - destruct b.
    + destruct (nth_error filled_lai k); [|discriminate].
      destruct (fill_temp_array r filled_lai (S k)) as [rest|e] eqn:E; simpl; [|discriminate].
      intros H; injection H as <-. simpl. f_equal. eapply IH; eassumption.
    + destruct (fill_temp_array r filled_lai k) as [rest|e] eqn:E; simpl; [|discriminate].
      intros H; injection H as <-. simpl. f_equal. eapply IH; eassumption.
Qed.

Lemma fill_temp_array_enough (result : list bool) (filled_lai : list float) (k : nat) :
  k + count_true result <= length filled_lai ->
  exists temp_array, fill_temp_array result filled_lai k = Ok temp_array.
Proof.
  revert k; induction result as [|b r IH]; intros k Hk; simpl.
  - eexists; reflexivity.
  - destruct b; unfold count_true in Hk; simpl in Hk; fold (count_true r) in Hk.
    + destruct (nth_error filled_lai k) as [v|] eqn:E.
      * destruct (IH (S k)) as (rest & ->); [lia|]. eexists; reflexivity.
      * apply nth_error_None in E. lia.
    + destruct (IH k Hk) as (rest & ->). eexists; reflexivity.
Qed.

Lemma fill_temp_array_short (result : list bool) (filled_lai : list float) (k : nat) :
  k <= length filled_lai ->
  length filled_lai < k + count_true result ->
  fill_temp_array result filled_lai k = Err IndexError.
Proof.
  revert k; induction result as [|b r IH]; intros k Hle Hk.
  - unfold count_true in Hk; simpl in Hk. lia.
  - simpl. destruct b; unfold count_true in Hk; simpl in Hk; fold (count_true r) in Hk.
    + destruct (nth_error filled_lai k) as [v|] eqn:E; [|reflexivity].
      assert (k < length filled_lai) by (apply nth_error_Some; congruence).
      rewrite IH by lia. reflexivity.
    + rewrite IH by lia. reflexivity.
Qed.

Lemma chunks_length (nc nr : nat) (a : list float) : length (chunks nc nr a) = nr.
Proof. revert a; induction nr as [|n IH]; intros a; simpl; auto. Qed.

Lemma chunks_rect (nc nr : nat) (a : list float) (r : list float) :
  length a = nr * nc -> In r (chunks nc nr a) -> length r = nc.
Proof.
  revert a; induction nr as [|n IH]; intros a Ha; simpl; [tauto|].
  intros [<-|H].
  - rewrite length_firstn. simpl in Ha. lia.
  - apply (IH (skipn nc a)); [|assumption]. rewrite length_skipn. simpl in Ha. lia.
Qed.

Lemma chunks_concat (nc nr : nat) (a : list float) :
  length a = nr * nc -> concat (chunks nc nr a) = a.
Proof.
  revert a; induction nr as [|n IH]; intros a Ha; simpl.
  - destruct a; [reflexivity | discriminate].
  - rewrite IH by (rewrite length_skipn; simpl in Ha; lia). apply firstn_skipn.
Qed.

Lemma reshape_46 (a : list float) (k : nat) :
  length a = k * 46 -> reshape a 46 = Ok (mk_matrix 46 (chunks 46 k a)).
Proof.
  intros Ha. unfold reshape. rewrite Ha.
  rewrite Nat.Div0.mod_mul, Nat.div_mul by lia. reflexivity.
Qed.

Lemma reshape_46_inv (a : list float) (m : matrix) :
  reshape a 46 = Ok m ->
  exists k, length a = k * 46 /\ m = mk_matrix 46 (chunks 46 k a).
Proof.
  unfold reshape.
  change ((46 =? 0) || negb (length a mod 46 =? 0))
    with (negb (length a mod 46 =? 0)).
  destruct (length a mod 46 =? 0) eqn:E; cbv [negb]; [|discriminate].
  intros H; injection H as <-. exists (length a / 46). split; [|reflexivity].
  apply Nat.eqb_eq in E. pose proof (Nat.div_mod_eq (length a) 46). lia.
Qed.

Lemma fill_positions_length (positions : list nat) (a r : list float) :
  fill_positions positions a = Ok r -> length r = length a.
Proof.
  revert a; induction positions as [|p ps IH]; intros a; simpl.
  - intros H; injection H as <-; reflexivity.
  - destruct (py_index a (Z.of_nat p - 1)) as [prev|e]; simpl; [|discriminate].
    destruct (py_index a (Z.of_nat p + 1)) as [next|e]; simpl; [|discriminate].
    intros H. rewrite (IH _ H). apply set_nth_length.
Qed.

Lemma regular_calendar_length (lai_time : list date) :
  length (regular_calendar lai_time) = length (years_of lai_time) * 46.
Proof.
  unfold regular_calendar. fold (years_of lai_time).
  induction (years_of lai_time) as [|y ys IH]; simpl; [reflexivity|].
  rewrite length_app, date_range_8D_length, IH. reflexivity.
Qed.

Lemma date_range_8D_year (y : Z) (d : date) : In d (date_range_8D y) -> year d = y.
Proof.
  unfold date_range_8D. intros H. apply in_map_iff in H.
  destruct H as (k & <- & _). reflexivity.
Qed.

Lemma selected_dates_by_year (ys : list Z) :
  filter (fun d => (2003 <=? year d)%Z && (year d <=? 2023)%Z) (flat_map date_range_8D ys)
  = flat_map date_range_8D (filter in_2003_2023 ys).
Proof.
  induction ys as [|y ys IH]; simpl; [reflexivity|].
  rewrite filter_app, IH. unfold in_2003_2023 at 2.
  destruct ((2003 <=? y)%Z && (y <=? 2023)%Z) eqn:E; simpl; f_equal.
  - rewrite <- (filter_ext_in (fun _ => true)).
    + induction (date_range_8D y); simpl; [reflexivity | f_equal; assumption].
    + intros d Hd. rewrite (date_range_8D_year y d Hd), E. reflexivity.
  - rewrite <- (filter_ext_in (fun _ => false)).
    + induction (date_range_8D y); simpl; [reflexivity | assumption].
    + intros d Hd. rewrite (date_range_8D_year y d Hd), E. reflexivity.
Qed.

Lemma flat_map_date_range_length (ys : list Z) :
  length (flat_map date_range_8D ys) = length ys * 46.
Proof.
  induction ys as [|y ys IH]; simpl; [reflexivity|].
  rewrite length_app, date_range_8D_length, IH. reflexivity.
Qed.

Lemma rows_drop_first_last (m : matrix) :
  length (rows (drop_first_last m)) = length (rows m) - 2
  /\ forall r, In r (rows (drop_first_last m)) -> In r (rows m).
Proof.
  unfold drop_first_last. simpl. split.
  - rewrite removelast_length. destruct (rows m); simpl; lia.
  - intros r Hr. apply in_removelast in Hr. destruct (rows m); [assumption | right; assumption].
Qed.

Lemma retained_rows (temp_array : list float) (ny : nat) :
  length temp_array = ny * 46 ->
  let sel := drop_first_last (mk_matrix 46 (chunks 46 ny temp_array)) in
  ncols sel = 46 /\ rectangular sel /\ length (rows sel) = ny - 2
  /\ length (flatten sel) = (ny - 2) * 46.
Proof.
  intros Ht sel.
  destruct (rows_drop_first_last (mk_matrix 46 (chunks 46 ny temp_array))) as [Hn Hsub].
  fold sel in Hn, Hsub.
  assert (Hn' : length (rows sel) = ny - 2).
  { rewrite Hn. cbn [rows]. rewrite chunks_length. reflexivity. }
  assert (Hrect : rectangular sel).
  { intros r Hr. apply (chunks_rect 46 ny temp_array); [assumption|].
    apply (Hsub r Hr). }
  split; [reflexivity|]. split; [exact Hrect|]. split; [exact Hn'|].
  unfold flatten. rewrite (concat_length_rect _ 46) by exact Hrect. rewrite Hn'. reflexivity.
Qed.

(** What a call that returns a pair has done. *)
Lemma check_data_availability_LAI_inv
  (filled_lai : list float) (lai_time : list date) (m : matrix) (d : list date) :
  check_data_availability_LAI filled_lai lai_time = Ok (Some (m, d)) ->
  exists temp_array,
    fill_temp_array (isin_dates (regular_calendar lai_time) lai_time) filled_lai 0
    = Ok temp_array
    /\ length temp_array = length (years_of lai_time) * 46
    /\ d = flat_map date_range_8D (filter in_2003_2023 (years_of lai_time))
    /\ let sel := drop_first_last
                    (mk_matrix 46 (chunks 46 (length (years_of lai_time)) temp_array)) in
       (flatten sel = [] /\ m = sel)
       \/ (exists flat,
             nan_positions (flatten sel) <> []
             /\ fill_positions (nan_positions (flatten sel)) (flatten sel) = Ok flat
             /\ m = mk_matrix 46 (chunks 46 (length (years_of lai_time) - 2) flat)).
Proof.
  unfold check_data_availability_LAI. destruct lai_time as [|d0 rest]; [discriminate|].
  set (t := d0 :: rest). cbv zeta.
  destruct (fill_temp_array (isin_dates (regular_calendar t) t) filled_lai 0)
    as [temp|e] eqn:Etemp; unfold bind at 1; [|discriminate].
  assert (Hlen : length temp = length (years_of t) * 46).
  { rewrite (fill_temp_array_length _ _ _ _ Etemp). unfold isin_dates.
    rewrite length_map. apply regular_calendar_length. }
  rewrite (reshape_46 temp _ Hlen). unfold bind at 1.
  destruct (retained_rows temp _ Hlen) as (_ & _ & _ & Hflat).
  set (sel := drop_first_last (mk_matrix 46 (chunks 46 (length (years_of t)) temp))) in *.
  assert (Hd : filter (fun d1 => (2003 <=? year d1)%Z && (year d1 <=? 2023)%Z)
                 (regular_calendar t)
               = flat_map date_range_8D (filter in_2003_2023 (years_of t)))
    by apply selected_dates_by_year.
  rewrite Hd.
  destruct (0 <? length (flatten sel)) eqn:Ecells.
  - destruct (0 <? length (nan_positions (flatten sel))) eqn:Epos; [|discriminate].
    destruct (fill_positions (nan_positions (flatten sel)) (flatten sel))
      as [flat|e] eqn:Efill; unfold bind at 1; [|discriminate].
    assert (Hfl : length flat = (length (years_of t) - 2) * 46)
      by (rewrite (fill_positions_length _ _ _ Efill); exact Hflat).
    rewrite (reshape_46 flat _ Hfl). unfold bind at 1.
    intros H; injection H as <- <-. subst sel.
    exists temp. repeat split; auto. right. exists flat. repeat split; auto.
    intros E. rewrite E in Epos. discriminate.
  - intros H; injection H as <- <-. subst sel.
    exists temp. repeat split; auto. left. split; [|reflexivity].
    apply Nat.ltb_ge in Ecells.
    destruct (flatten _); [reflexivity | simpl in Ecells; lia].
Qed.

Lemma returned_matrix_shape
  (filled_lai : list float) (lai_time : list date) (m : matrix) (d : list date) :
  check_data_availability_LAI filled_lai lai_time = Ok (Some (m, d)) ->
  ncols m = 46 /\ rectangular m /\ length (rows m) = length (years_of lai_time) - 2.
Proof.
  intros H. destruct (check_data_availability_LAI_inv _ _ _ _ H)
    as (temp & _ & Hlen & Hd & Hcase).
  destruct (retained_rows temp _ Hlen) as (Hc & Hrect & Hrows & Hflat).
  cbv zeta in Hcase, Hc, Hrect, Hrows, Hflat.
  destruct Hcase as [[_ ->]|(flat & _ & Hfill & ->)]; [auto|].
  simpl. rewrite chunks_length. repeat split; auto.
  intros r Hr. simpl in Hr.
  apply (chunks_rect 46 (length (years_of lai_time) - 2) flat); [|exact Hr].
  rewrite (fill_positions_length _ _ _ Hfill). exact Hflat.
Qed.

(** X9.  Whenever the call returns a pair, the matrix has 46 columns, every
    row has 46 cells, and there is one row per calendar year between the
    first and the last year of the timestamps except those two; the dates
    are the calendar dates of all those years that lie in 2003..2023 (46 per
    year), whatever rows were retained. *)
Theorem check_data_availability_LAI_shape
  (filled_lai : list float) (lai_time : list date) (m : matrix) (d : list date) :
  check_data_availability_LAI filled_lai lai_time = Ok (Some (m, d)) ->
  ncols m = 46
  /\ rectangular m
  /\ length (rows m) = length (years_of lai_time) - 2
  /\ d = flat_map date_range_8D (filter in_2003_2023 (years_of lai_time))
  /\ length d = length (filter in_2003_2023 (years_of lai_time)) * 46.
Proof.
  intros H. destruct (returned_matrix_shape _ _ _ _ H) as (H1 & H2 & H3).
  destruct (check_data_availability_LAI_inv _ _ _ _ H) as (_ & _ & _ & Hd & _).
  repeat split; auto.
  rewrite Hd. apply flat_map_date_range_length.
Qed.

Lemma check_data_availability_LAI_shape_witness :
  let lai_time := without (mk_date 2004 8) (full_years 2003 2005) in
  let m := mk_matrix 46 [fz 46 :: Fin (qc 93 2) :: map of_nat (seq 47 44)] in
  ncols m = 46
  /\ rectangular m
  /\ length (rows m) = length (years_of lai_time) - 2
  /\ full_years 2003 2005
     = flat_map date_range_8D (filter in_2003_2023 (years_of lai_time))
  /\ length (full_years 2003 2005)
     = length (filter in_2003_2023 (years_of lai_time)) * 46.
Proof.
  apply (check_data_availability_LAI_shape (counting 137)).
  canon_eq.
Defined.

(** X10.  When the timestamps match more calendar dates than there are
    values, the copying loop runs off the end of [filled_lai] and the call
    raises IndexError. *)
Theorem check_data_availability_LAI_too_few_values
  (filled_lai : list float) (lai_time : list date) :
  lai_time <> [] ->
  length filled_lai < count_true (isin_dates (regular_calendar lai_time) lai_time) ->
  check_data_availability_LAI filled_lai lai_time = Err IndexError.
Proof.
  intros Hne Hshort. unfold check_data_availability_LAI.
  destruct lai_time as [|d0 rest]; [congruence|]. cbv zeta.
  rewrite fill_temp_array_short by lia. reflexivity.
Qed.

Lemma check_data_availability_LAI_too_few_values_witness :
  check_data_availability_LAI (counting 100) (full_years 2003 2005) = Err IndexError.
Proof.
  apply (check_data_availability_LAI_too_few_values (counting 100) (full_years 2003 2005)).
  - discriminate.
  - vm_compute. lia.
Defined.

(** ** The gap-fill loop *)

Lemma nan_positions_from_In (k p : nat) (a : list float) :
  In p (nan_positions_from k a)
  <-> k <= p /\ p - k < length a /\ isnan (nth (p - k) a NaN) = true.
Proof.
  revert k; induction a as [|v r IH]; intros k; simpl.
  - split; [tauto | intros (_ & H & _); lia].
  - destruct v as [|x]; simpl; rewrite IH; split.
    + intros [<-|(H1 & H2 & H3)].
      * rewrite Nat.sub_diag. repeat split; auto; lia.
      * replace (p - k) with (S (p - S k)) by lia. repeat split; auto; lia.
    + intros (H1 & H2 & H3). destruct (Nat.eq_dec k p) as [->|Hne]; [left; reflexivity|].
      right. replace (p - k) with (S (p - S k)) in H2, H3 by lia.
      repeat split; auto; lia.
    + intros (H1 & H2 & H3).
      replace (p - k) with (S (p - S k)) by lia. repeat split; auto; lia.
    + intros (H1 & H2 & H3). destruct (Nat.eq_dec k p) as [->|Hne].
      * rewrite Nat.sub_diag in H3. discriminate.
      * replace (p - k) with (S (p - S k)) in H2, H3 by lia.
        repeat split; auto; lia.
Qed.

Lemma nan_positions_In (p : nat) (a : list float) :
  In p (nan_positions a) <-> p < length a /\ isnan (nth p a NaN) = true.
Proof.
  unfold nan_positions. rewrite nan_positions_from_In, Nat.sub_0_r.
  split; [intros (_ & H); exact H | intros H; split; [lia | exact H]].
Qed.

Lemma fill_positions_step (p : nat) (ps : list nat) (a : list float) :
  fill_positions (p :: ps) a
  = (prev <- py_index a (Z.of_nat p - 1) ;;
     next <- py_index a (Z.of_nat p + 1) ;;
     fill_positions ps (set_nth p (fdiv (fadd prev next) (Fin (qc 2 1))) a)).
Proof. reflexivity. Qed.

Lemma fill_positions_isolated (a : list float) (ps : list nat) (b : list float) :
  (forall p, In p ps -> 0 < p /\ p + 1 < length a) ->
  (forall p q, In p ps -> In q ps -> q <> p + 1) ->
  length b = length a ->
  (forall p, In p ps ->
     nth (p - 1) b NaN = nth (p - 1) a NaN /\ nth (p + 1) b NaN = nth (p + 1) a NaN) ->
  exists r,
    fill_positions ps b = Ok r
    /\ length r = length a
    /\ forall j, nth j r NaN
                 = if existsb (Nat.eqb j) ps then neighbour_mean a j else nth j b NaN.
Proof.
  revert b; induction ps as [|p ps IH]; intros b Hint Hiso Hlen Hnb.
  - exists b. repeat split; auto.
  - destruct (Hint p (or_introl eq_refl)) as [Hp0 Hp1].
    destruct (Hnb p (or_introl eq_refl)) as [Hprev Hnext].
    rewrite fill_positions_step.
    replace (Z.of_nat p - 1)%Z with (Z.of_nat (p - 1)) by lia.
    replace (Z.of_nat p + 1)%Z with (Z.of_nat (p + 1)) by lia.
    rewrite !py_index_in_range by lia. unfold bind.
    rewrite Hprev, Hnext. fold (neighbour_mean a p).
    destruct (IH (set_nth p (neighbour_mean a p) b)) as (r & Hok & Hrl & Hnth).
    + intros q Hq. apply Hint. right; assumption.
    + intros q q' Hq Hq'. apply Hiso; right; assumption.
    + rewrite set_nth_length. assumption.
    + intros q Hq.
      assert (Hq1 : p <> q + 1) by (apply Hiso; [right; assumption | left; reflexivity]).
      assert (Hq2 : q <> p + 1) by (apply Hiso; [left; reflexivity | right; assumption]).
      destruct (Hint q (or_intror Hq)) as [Hq0 _].
      rewrite !set_nth_other by lia. apply Hnb. right; assumption.
    + exists r. split; [assumption|]. split; [assumption|].
      intros j. rewrite Hnth. simpl existsb.
      destruct (Nat.eqb_spec j p) as [->|Hjp]; simpl.
      * destruct (existsb (Nat.eqb p) ps); [reflexivity|].
        apply set_nth_same. lia.
      * rewrite set_nth_other by assumption. reflexivity.
Qed.

(** X11.  When every missing cell of the array lies strictly inside it and
    has two non-missing neighbours, the gap-fill loop returns an array of the
    same length in which each missing cell holds the average of its two
    neighbours, every other cell is unchanged, and no cell is missing. *)
Theorem fill_positions_isolated_gaps (a : list float) :
  (forall p, p < length a -> isnan (nth p a NaN) = true ->
     0 < p /\ p + 1 < length a
     /\ isnan (nth (p - 1) a NaN) = false /\ isnan (nth (p + 1) a NaN) = false) ->
  exists r,
    fill_positions (nan_positions a) a = Ok r
    /\ length r = length a
    /\ (forall j, j < length a ->
          nth j r NaN = if isnan (nth j a NaN) then neighbour_mean a j else nth j a NaN)
    /\ (forall v, In v r -> isnan v = false).
Proof.
  intros Hgap.
  destruct (fill_positions_isolated a (nan_positions a) a) as (r & Hok & Hlen & Hnth); auto.
  - intros p Hp. apply nan_positions_In in Hp. destruct Hp as [H1 H2].
    destruct (Hgap p H1 H2) as (? & ? & _). auto.
  - intros p q Hp Hq ->. apply nan_positions_In in Hp, Hq.
    destruct Hp as [H1 H2]. destruct Hq as [_ H4].
    destruct (Hgap p H1 H2) as (_ & _ & _ & H5). congruence.
  - assert (Hcell : forall j, j < length a ->
              nth j r NaN = if isnan (nth j a NaN) then neighbour_mean a j else nth j a NaN).
    { intros j Hj. rewrite Hnth. destruct (isnan (nth j a NaN)) eqn:E.
      - replace (existsb (Nat.eqb j) (nan_positions a)) with true; [reflexivity|].
        symmetry. apply existsb_eqb_In, nan_positions_In. auto.
      - replace (existsb (Nat.eqb j) (nan_positions a)) with false; [reflexivity|].
        symmetry. apply existsb_eqb_not_In. intros H. apply nan_positions_In in H.
        destruct H as [_ H]. congruence. }
    exists r. repeat split; auto.
    intros v Hv. destruct (In_nth _ _ NaN Hv) as (j & Hj & <-).
    rewrite Hlen in Hj. rewrite (Hcell j Hj).
    destruct (isnan (nth j a NaN)) eqn:E; [|assumption].
    destruct (Hgap j Hj E) as (_ & _ & H1 & H2). unfold neighbour_mean.
    destruct (nth (j - 1) a NaN); [discriminate|].
    destruct (nth (j + 1) a NaN); [discriminate|]. reflexivity.
Qed.

Lemma fill_positions_isolated_gaps_witness :
  exists r,
    fill_positions (nan_positions [fz 1; NaN; fz 3; fz 4; NaN; fz 8])
      [fz 1; NaN; fz 3; fz 4; NaN; fz 8] = Ok r
    /\ length r = length [fz 1; NaN; fz 3; fz 4; NaN; fz 8]
    /\ (forall j, j < length [fz 1; NaN; fz 3; fz 4; NaN; fz 8] ->
          nth j r NaN
          = if isnan (nth j [fz 1; NaN; fz 3; fz 4; NaN; fz 8] NaN)
            then neighbour_mean [fz 1; NaN; fz 3; fz 4; NaN; fz 8] j
            else nth j [fz 1; NaN; fz 3; fz 4; NaN; fz 8] NaN)
    /\ (forall v, In v r -> isnan v = false).
Proof.
  apply (fill_positions_isolated_gaps [fz 1; NaN; fz 3; fz 4; NaN; fz 8]).
  intros p Hp. simpl in Hp.
  do 6 (destruct p as [|p]; [simpl; intros H; try discriminate H; repeat split; lia|]).
  lia.
Defined.

Lemma py_index_nat_ok (b : list float) (k : nat) (v : float) :
  py_index b (Z.of_nat k) = Ok v -> v = nth k b NaN.
Proof.
  destruct (Nat.lt_ge_cases k (length b)) as [H|H].
  - rewrite py_index_in_range by assumption. intros E; injection E as <-; reflexivity.
  - unfold py_index.
    replace ((0 <=? Z.of_nat k) && (Z.of_nat k <? Z.of_nat (length b)))%Z with false
      by (symmetry; apply andb_false_iff; right; apply Z.ltb_ge; lia).
    replace ((- Z.of_nat (length b) <=? Z.of_nat k) && (Z.of_nat k <? 0))%Z with false
      by (symmetry; apply andb_false_iff; right; apply Z.ltb_ge; lia).
    discriminate.
Qed.

Lemma set_nth_nan_keeps_nan (i j : nat) (b : list float) :
  nth j b NaN = NaN -> nth j (set_nth i NaN b) NaN = NaN.
Proof.
  intros H. destruct (Nat.eq_dec j i) as [->|Hne].
  - destruct (Nat.lt_ge_cases i (length b)) as [Hi|Hi].
    + apply set_nth_same; assumption.
    + apply nth_overflow. rewrite set_nth_length. assumption.
  - rewrite set_nth_other by assumption. exact H.
Qed.

Lemma fill_positions_keeps_adjacent_nan (ps : list nat) (b r : list float) (p : nat) :
  nth p b NaN = NaN -> nth (S p) b NaN = NaN ->
  fill_positions ps b = Ok r ->
  nth p r NaN = NaN /\ nth (S p) r NaN = NaN.
Proof.
  revert b; induction ps as [|q ps IH]; intros b Hp Hsp.
  - intros H; injection H as <-. auto.
  - rewrite fill_positions_step.
    destruct (py_index b (Z.of_nat q - 1)) as [prev|e] eqn:Eprev; unfold bind at 1;
      [|discriminate].
    destruct (py_index b (Z.of_nat q + 1)) as [next|e] eqn:Enext; unfold bind at 1;
      [|discriminate].
    intros H. apply (IH _) in H; [exact H| |].
    + destruct (Nat.eq_dec q p) as [->|Hqp].
      * replace (Z.of_nat p + 1)%Z with (Z.of_nat (S p)) in Enext by lia.
        apply py_index_nat_ok in Enext. rewrite Hsp in Enext. subst next.
        replace (fdiv (fadd prev NaN) (Fin (qc 2 1))) with NaN by (destruct prev; reflexivity).
        apply set_nth_nan_keeps_nan; assumption.
      * destruct (Nat.eq_dec q (S p)) as [->|Hqs].
        -- rewrite set_nth_other by lia. assumption.
        -- rewrite set_nth_other by lia. assumption.
    + destruct (Nat.eq_dec q (S p)) as [->|Hqs].
      * replace (Z.of_nat (S p) - 1)%Z with (Z.of_nat p) in Eprev by lia.
        apply py_index_nat_ok in Eprev. rewrite Hp in Eprev. subst prev.
        change (fdiv (fadd NaN next) (Fin (qc 2 1))) with NaN.
        apply set_nth_nan_keeps_nan; assumption.
      * rewrite set_nth_other by lia. assumption.
Qed.

(** X12.  Two neighbouring missing cells are not filled: when the retained
    array has missing cells at positions [p] and [p+1] and the call returns a
    pair, the returned matrix is still missing at both positions. *)
Theorem adjacent_gaps_stay_missing
  (filled_lai : list float) (lai_time : list date) (temp_array : list float)
  (m : matrix) (d : list date) (p : nat) :
  fill_temp_array (isin_dates (regular_calendar lai_time) lai_time) filled_lai 0
  = Ok temp_array ->
  nth p (flatten (drop_first_last
           (mk_matrix 46 (chunks 46 (length (years_of lai_time)) temp_array)))) NaN = NaN ->
  nth (S p) (flatten (drop_first_last
           (mk_matrix 46 (chunks 46 (length (years_of lai_time)) temp_array)))) NaN = NaN ->
  check_data_availability_LAI filled_lai lai_time = Ok (Some (m, d)) ->
  nth p (flatten m) NaN = NaN /\ nth (S p) (flatten m) NaN = NaN.
Proof.
  intros Htemp Hp Hsp H.
  destruct (check_data_availability_LAI_inv _ _ _ _ H) as (temp & Htemp' & Hlen & _ & Hcase).
  assert (temp = temp_array) by congruence. subst temp.
  destruct (retained_rows temp_array _ Hlen) as (_ & _ & _ & Hflat).
  cbv zeta in Hcase, Hflat.
  destruct Hcase as [[_ ->]|(flat & _ & Hfill & ->)]; [auto|].
  assert (Hm : flatten (mk_matrix 46 (chunks 46 (length (years_of lai_time) - 2) flat))
               = flat).
  { unfold flatten. cbn [rows]. apply chunks_concat.
    rewrite (fill_positions_length _ _ _ Hfill). exact Hflat. }
  rewrite Hm. clear Hm.
  revert Hp Hsp Hfill. generalize (flatten (drop_first_last
    (mk_matrix 46 (chunks 46 (length (years_of lai_time)) temp_array)))).
  intros b Hp Hsp Hfill.
  eapply fill_positions_keeps_adjacent_nan; eassumption.
Qed.

Lemma adjacent_gaps_stay_missing_witness :
  let lai_time := without (mk_date 2004 16) (without (mk_date 2004 8) (full_years 2003 2005)) in
  let m := mk_matrix 46 [fz 46 :: NaN :: NaN :: map of_nat (seq 47 43)] in
  nth 1 (flatten m) NaN = NaN /\ nth 2 (flatten m) NaN = NaN.
Proof.
  apply (adjacent_gaps_stay_missing (counting 136)
           (without (mk_date 2004 16) (without (mk_date 2004 8) (full_years 2003 2005)))
           (map of_nat (seq 0 47) ++ [NaN; NaN] ++ map of_nat (seq 47 89))
           (mk_matrix 46 [fz 46 :: NaN :: NaN :: map of_nat (seq 47 43)])
           (full_years 2003 2005) 1).
  - canon_eq.
  - reflexivity.
  - reflexivity.
  - canon_eq.
Defined.

(** ** From the regularizer to the data frame *)

(** X13.  After a call of the regularizer that returned a pair, and when the
    filter returns an array of the length of its input, the smoother returns
    one value per cell of the matrix, and the data frame of dates and values
    can be built exactly when the number of calendar years within 2003..2023
    equals the number of retained years (all years but the first and the
    last); otherwise building it raises ValueError.  An exception of the
    filter leaves [get_LAI] as it is. *)
Theorem get_LAI_frame_needs_matching_years
  (savgol_filter : list float -> Z -> Z -> outcome (list float))
  (filled_lai : list float) (lai_time : list date) (m : matrix) (d : list date)
  (smoothed_column_means : list float) :
  check_data_availability_LAI filled_lai lai_time = Ok (Some (m, d)) ->
  savgol_filter (column_means m) 13%Z 3%Z = Ok smoothed_column_means ->
  length smoothed_column_means = ncols m ->
  (exists smooth_lai,
      smoothing_LAI_raising savgol_filter m = Ok smooth_lai
      /\ length smooth_lai = (length (years_of lai_time) - 2) * 46)
  /\ ((exists df, get_LAI_frame savgol_filter filled_lai lai_time = Ok df)
      <-> length (filter in_2003_2023 (years_of lai_time)) = length (years_of lai_time) - 2)
  /\ (length (filter in_2003_2023 (years_of lai_time)) <> length (years_of lai_time) - 2 ->
      get_LAI_frame savgol_filter filled_lai lai_time = Err ValueError).
Proof.
  intros H Hf Hs.
  destruct (returned_matrix_shape _ _ _ _ H) as (Hc & Hrect & Hrows).
  destruct (check_data_availability_LAI_inv _ _ _ _ H) as (_ & _ & _ & Hd & _).
  pose proof (smoothing_LAI_result (fun _ _ _ => smoothed_column_means) m Hrect Hs) as Hsm.
  cbv beta in Hsm.
  set (smooth := map2 fadd (rolling_mean (flatten (anomaly_of m)) 13)
                   (tile smoothed_column_means (length (rows m)))) in *.
  assert (Hraise : smoothing_LAI_raising savgol_filter m = Ok smooth).
  { unfold smoothing_LAI_raising. rewrite Hf. unfold bind at 1. exact Hsm. }
  assert (Hlen : length smooth = (length (years_of lai_time) - 2) * 46).
  { subst smooth. rewrite map2_length, rolling_mean_length, tile_length,
      anomaly_length, Hs, Hc, Hrows by assumption. lia. }
  assert (Hdl : length d = length (filter in_2003_2023 (years_of lai_time)) * 46)
    by (rewrite Hd; apply flat_map_date_range_length).
  assert (Hframe : get_LAI_frame savgol_filter filled_lai lai_time
                   = DataFrame_Date_LAI d smooth).
  { unfold get_LAI_frame. rewrite H. unfold bind at 1. rewrite Hraise. reflexivity. }
  split; [exists smooth; auto|]. rewrite Hframe. unfold DataFrame_Date_LAI.
  rewrite Hdl, Hlen. split.
  - destruct (Nat.eqb_spec (length (filter in_2003_2023 (years_of lai_time)) * 46)
                           ((length (years_of lai_time) - 2) * 46)) as [E|E]; split.
    + intros _. lia.
    + intros _. eexists; reflexivity.
    + intros (df & Hdf). discriminate.
    + intros E'. exfalso. apply E. rewrite E'. reflexivity.
  - intros Hne.
    destruct (Nat.eqb_spec (length (filter in_2003_2023 (years_of lai_time)) * 46)
                           ((length (years_of lai_time) - 2) * 46)) as [E|E];
      [exfalso; apply Hne; lia | reflexivity].
Qed.

Lemma get_LAI_frame_needs_matching_years_witness :
  let savgol_filter := fun x w p => Ok (savgol_identity x w p) in
  let lai_time := without (mk_date 2004 8) (full_years 2003 2005) in
  let m := mk_matrix 46 [fz 46 :: Fin (qc 93 2) :: map of_nat (seq 47 44)] in
  (exists smooth_lai,
      smoothing_LAI_raising savgol_filter m = Ok smooth_lai
      /\ length smooth_lai = (length (years_of lai_time) - 2) * 46)
  /\ ((exists df, get_LAI_frame savgol_filter (counting 137) lai_time = Ok df)
      <-> length (filter in_2003_2023 (years_of lai_time)) = length (years_of lai_time) - 2)
  /\ (length (filter in_2003_2023 (years_of lai_time)) <> length (years_of lai_time) - 2 ->
      get_LAI_frame savgol_filter (counting 137) lai_time = Err ValueError).
Proof.
  apply (get_LAI_frame_needs_matching_years
           (fun x w p => Ok (savgol_identity x w p)) (counting 137)
           (without (mk_date 2004 8) (full_years 2003 2005))
           (mk_matrix 46 [fz 46 :: Fin (qc 93 2) :: map of_nat (seq 47 44)])
           (full_years 2003 2005)
           (fz 46 :: Fin (qc 93 2) :: map of_nat (seq 47 44))).
  - canon_eq.
  - canon_eq.
  - reflexivity.
Defined.

(** ** get_LAI: a selected pixel that is absent *)

Lemma mapM_fails {A B : Type} (f : A -> outcome B) (l : list A) (x : A) :
  In x l -> (exists e, f x = Err e) -> exists e, mapM f l = Err e.
Proof.
  induction l as [|a l IH]; intros Hin Hx; [contradiction|].
  simpl. destruct (f a) as [b|e] eqn:E; simpl; [|eexists; reflexivity].
  destruct Hin as [->|Hin].
  - destruct Hx as (e & Hx). congruence.
  - destruct (IH Hin Hx) as (e & ->). simpl. eexists; reflexivity.
Qed.

Lemma scaled_column_absent (t : table) (p : Z) (n : nat) :
  loc t p = [] -> scaled_column t p n = Err IndexError.
Proof.
  intros H. unfold scaled_column, first_scale. rewrite H. reflexivity.
Qed.

(** X16.  When one of the nine selected pixels has no row in the LAI table or
    in the standard-deviation table, the selector raises an exception; it
    never returns arrays with that column left empty or filled in. *)
Theorem get_LAI_pixels_absent_pixel_raises (lai sd qc : table) (p : Z) :
  In p pixel_no ->
  loc lai p = [] \/ loc sd p = [] ->
  exists e, get_LAI_pixels lai sd qc = Err e.
Proof.
  intros Hin Habs. unfold get_LAI_pixels.
  destruct (max_pixel lai) as [mx|e]; unfold bind at 1; [|eexists; reflexivity].
  destruct (mx =? 0)%Z; [eexists; reflexivity|]. cbv zeta.
  destruct (_ <? 0)%Z; [eexists; reflexivity|].
  match goal with
  | |- context [mapM ?f pixel_no] =>
      destruct (mapM_fails f pixel_no p Hin) as (e & ->); [|eexists; reflexivity]
  end.
  cbv beta. destruct Habs as [Hl|Hs].
  - rewrite (scaled_column_absent lai p _ Hl). eexists; reflexivity.
  - destruct (scaled_column lai p _) as [l|e]; unfold bind at 1; [|eexists; reflexivity].
    rewrite (scaled_column_absent sd p _ Hs). eexists; reflexivity.
Qed.

Lemma get_LAI_pixels_absent_pixel_raises_witness :
  exists e,
    get_LAI_pixels (mk_table [1; 7; 8; 9; 12; 14; 17; 18; 19; 25]%Z 2 (Fin (qc 1 10)))
                   table_25 table_25_qc = Err e.
Proof.
  apply (get_LAI_pixels_absent_pixel_raises
           (mk_table [1; 7; 8; 9; 12; 14; 17; 18; 19; 25]%Z 2 (Fin (qc 1 10)))
           table_25 table_25_qc 13).
  - simpl. tauto.
  - left. reflexivity.
Defined.
